(** * PM slave state handling (zynqmp_pmufw, pm_slave.c)

    A shallow embedding of the slave-state reconciliation code of the PMU
    firmware: capability aggregation over the requirement list, state
    selection from the FSM state table, latency-constrained escalation,
    the prepare / apply / settle sequence of a state change, force-down,
    configuration and the wake-up latency query.

    Conventions.
    - [u32] and [PmStateId] values are integers of [Z]; wrap-around is
      written out where the C code can wrap ([wrap32], [castStateId]).
    - A C array together with its element count is a list; [statesCnt] and
      [transCnt] are the lengths of the two FSM tables.
    - The singly linked requirement list ([reqs], [nextMaster]) is a list.
    - Calls into other firmware modules (power parent, clocks, the FSM
      transition action) are recorded in a call log; the status each of
      them returns is an input of the model. *)

From Stdlib Require Import ZArith List Bool Lia.
Import ListNotations.
Local Open Scope Z_scope.

(** ** Constants of the headers

    The status codes (xstatus.h, pm_defs.h), the requirement and slave flag
    masks (pm_requirement.h, pm_slave.h), the internal capability bits and
    the width of [PmStateId] (pm_node.h) are declared outside pm_slave.c.
    They are taken as parameters; the code below only relies on the error
    codes being different from [XST_SUCCESS]. *)
Class PmConstants : Type := {
  XST_SUCCESS : Z;
  XST_FAILURE : Z;
  XST_NO_FEATURE : Z;
  XST_PM_CONFLICT : Z;
  PM_MASTER_USING_SLAVE_MASK : Z;
  PM_MASTER_SET_LATENCY_REQ : Z;
  PM_CAP_POWER : Z;
  PM_CAP_CLOCK : Z;
  PM_SLAVE_FLAG_IS_SHAREABLE : Z;
  PmStateId_bits : Z;
  XST_FAILURE_is_error : XST_FAILURE <> XST_SUCCESS;
  XST_NO_FEATURE_is_error : XST_NO_FEATURE <> XST_SUCCESS;
  XST_PM_CONFLICT_is_error : XST_PM_CONFLICT <> XST_SUCCESS
}.

(** Modelled from the spec: MAX_LATENCY is not defined in pm_slave.c; the
    spec calls it the "unbounded" sentinel, the maximum representable value
    of the 32-bit latency type. *)
Definition MAX_LATENCY : Z := 2 ^ 32 - 1.

(** Conversion of an integer to [u32]. *)
Definition wrap32 (x : Z) : Z := x mod 2 ^ 32.

(** Range of a [u32] value, as a decidable test. *)
Definition is_u32 (x : Z) : bool := (0 <=? x) && (x <=? MAX_LATENCY).

(** ** Data structures *)

(** [PmStateTran]: one entry of the transition table. *)
Record PmStateTran : Type := mkPmStateTran {
  latency : Z;
  fromState : Z;
  toState : Z
}.

(** [PmSlaveFsm]. [enterState] is the optional transition action; the
    status it returns is a function of the slave's current state and of the
    state to enter. *)
Record PmSlaveFsm : Type := mkPmSlaveFsm {
  states : list Z;
  enterState : option (Z -> Z -> Z);
  trans : list PmStateTran
}.

Definition statesCnt (fsm : PmSlaveFsm) : Z := Z.of_nat (length (states fsm)).
Definition transCnt (fsm : PmSlaveFsm) : Z := Z.of_nat (length (trans fsm)).

(** [fsm->states[i]] and [fsm->trans[t]]. *)
Definition states_at (fsm : PmSlaveFsm) (i : Z) : Z :=
  nth (Z.to_nat i) (states fsm) 0.

Definition trans_at (fsm : PmSlaveFsm) (t : Z) : PmStateTran :=
  nth (Z.to_nat t) (trans fsm) (mkPmStateTran 0 0 0).

(** [PmMaster], reduced to the field pm_slave.c reads. *)
Record PmMaster : Type := mkPmMaster {
  ipiMask : Z
}.

(** [PmRequirement]; [nextMaster] is the tail of the list it sits in. *)
Record PmRequirement : Type := mkPmRequirement {
  master : PmMaster;
  info : Z;
  currReq : Z;
  latencyReq : Z
}.

(** The power parent, reduced to the [getWakeUpLatency] method of its node
    class: [None] when the method pointer is NULL, otherwise the status it
    returns and the latency it stores. *)
Record PmPower : Type := mkPmPower {
  getWakeUpLatency : option (Z * Z)
}.

(** [PmNode]: [parent] is [None] for a NULL pointer, [clocks] tells whether
    the clock handle list is non-NULL. *)
Record PmNode : Type := mkPmNode {
  parent : option PmPower;
  clocks : bool;
  latencyMarg : Z;
  currState : Z
}.

Record PmSlave : Type := mkPmSlave {
  node : PmNode;
  reqs : list PmRequirement;
  slvFsm : PmSlaveFsm;
  flags : Z
}.

Definition set_currState (s : Z) (slv : PmSlave) : PmSlave :=
  mkPmSlave (mkPmNode (parent (node slv)) (clocks (node slv))
                      (latencyMarg (node slv)) s)
            (reqs slv) (slvFsm slv) (flags slv).

Definition set_latencyMarg (m : Z) (slv : PmSlave) : PmSlave :=
  mkPmSlave (mkPmNode (parent (node slv)) (clocks (node slv))
                      m (currState (node slv)))
            (reqs slv) (slvFsm slv) (flags slv).

Definition set_reqs (l : list PmRequirement) (slv : PmSlave) : PmSlave :=
  mkPmSlave (node slv) l (slvFsm slv) (flags slv).

Definition set_flags (f : Z) (slv : PmSlave) : PmSlave :=
  mkPmSlave (node slv) (reqs slv) (slvFsm slv) f.

(** ** Search loops

    Every [for] loop of pm_slave.c walks an index upwards and leaves at the
    first index that passes a test.  [scan_from p n i] runs at most [n]
    iterations starting at index [i]; [first_index p lo hi] is
    [for (i = lo; i < hi; i++) if (p i) break;]. The index cannot wrap: it
    stays below a count of its own type. *)
Fixpoint scan_from (p : Z -> bool) (n : nat) (i : Z) : option Z :=
  match n with
  | O => None
  | S n' => if p i then Some i else scan_from p n' (i + 1)
  end.

Definition first_index (p : Z -> bool) (lo hi : Z) : option Z :=
  scan_from p (Z.to_nat (hi - lo)) lo.

(** [__builtin_popcount] and [__builtin_ctz] on a 32-bit value. The result
    of [__builtin_ctz] is undefined for 0; the model gives 32 there. *)
Definition bit_positions : list Z := map Z.of_nat (seq 0 32).

Definition popcount32 (x : Z) : Z :=
  Z.of_nat (length (filter (Z.testbit x) bit_positions)).

Definition ctz32 (x : Z) : Z :=
  match first_index (Z.testbit x) 0 32 with
  | Some i => i
  | None => 32
  end.

Section Model.

Context {K : PmConstants}.

(** Conversion of an integer to [PmStateId]. *)
Definition castStateId (x : Z) : Z := x mod 2 ^ PmStateId_bits.

(** The test [(caps & slave->slvFsm->states[i]) == caps]. *)
Definition state_has_caps (fsm : PmSlaveFsm) (caps i : Z) : bool :=
  Z.land caps (states_at fsm i) =? caps.

(** The test [0U != (PM_MASTER_USING_SLAVE_MASK & req->info)]. *)
Definition req_using (req : PmRequirement) : bool :=
  negb (Z.land PM_MASTER_USING_SLAVE_MASK (info req) =? 0).

(** *** PmGetMaxCapabilities *)
Fixpoint PmGetMaxCapabilities_loop (req : list PmRequirement) (maxCaps : Z) : Z :=
  match req with
  | [] => maxCaps
  | r :: nextMaster =>
      PmGetMaxCapabilities_loop nextMaster
        (if req_using r then Z.lor maxCaps (currReq r) else maxCaps)
  end.

Definition PmGetMaxCapabilities (slave : PmSlave) : Z :=
  PmGetMaxCapabilities_loop (reqs slave) 0.

(** *** PmCheckCapabilities *)
Definition PmCheckCapabilities (slave : PmSlave) (capabilities : Z) : Z :=
  match first_index (state_has_caps (slvFsm slave) capabilities)
                    0 (statesCnt (slvFsm slave)) with
  | Some _ => XST_SUCCESS
  | None => XST_NO_FEATURE
  end.

(** *** PmGetStateWithCaps

    The out-parameter [state] is given as the cell it points to: [None] for
    a NULL pointer, [Some v] for a variable that holds [v]. The result is
    the status and the cell afterwards. *)
Definition PmGetStateWithCaps (slave : PmSlave) (caps : Z) (state : option Z)
  : Z * option Z :=
  match first_index (state_has_caps (slvFsm slave) caps)
                    0 (statesCnt (slvFsm slave)) with
  | Some i =>
      (XST_SUCCESS, match state with Some _ => Some i | None => None end)
  | None => (XST_PM_CONFLICT, state)
  end.

(** *** PmGetMinRequestedLatency *)
Fixpoint PmGetMinRequestedLatency_loop (req : list PmRequirement) (minLatency : Z) : Z :=
  match req with
  | [] => minLatency
  | r :: nextMaster =>
      PmGetMinRequestedLatency_loop nextMaster
        (if negb (Z.land PM_MASTER_SET_LATENCY_REQ (info r) =? 0)
         then (if minLatency >? latencyReq r then latencyReq r else minLatency)
         else minLatency)
  end.

Definition PmGetMinRequestedLatency (slave : PmSlave) : Z :=
  PmGetMinRequestedLatency_loop (reqs slave) MAX_LATENCY.

(** *** PmGetLatencyFromState

    [highestState] is [statesCnt - 1] converted to [PmStateId]. *)
Definition highestState (fsm : PmSlaveFsm) : Z := castStateId (statesCnt fsm - 1).

Definition tran_to_highest (fsm : PmSlaveFsm) (state i : Z) : bool :=
  (state =? fromState (trans_at fsm i))
  && (highestState fsm =? toState (trans_at fsm i)).

Definition PmGetLatencyFromState (slave : PmSlave) (state : Z) : Z :=
  match first_index (tran_to_highest (slvFsm slave) state)
                    0 (transCnt (slvFsm slave)) with
  | Some i => latency (trans_at (slvFsm slave) i)
  | None => 0
  end.

(** *** PmConstrainStateByLatency

    [state] is the value of [*state] on entry; the result is the status and
    the value of [*state] on return. The loop index is a [u32]; it is
    converted to [PmStateId] when passed to [PmGetLatencyFromState] and when
    stored into [*state]. *)
Definition constrain_ok (slave : PmSlave) (capsToSet minLatency i : Z) : bool :=
  state_has_caps (slvFsm slave) capsToSet i
  && negb (PmGetLatencyFromState slave (castStateId i) >? minLatency).

Definition PmConstrainStateByLatency (slave : PmSlave) (state capsToSet minLatency : Z)
  : Z * Z :=
  let startState := state in
  match first_index (constrain_ok slave capsToSet minLatency)
                    startState (statesCnt (slvFsm slave)) with
  | Some i => (XST_SUCCESS, castStateId i)
  | None => (XST_PM_CONFLICT, state)
  end.

(** *** PmSlaveGetUsersMask *)
Fixpoint PmSlaveGetUsersMask_loop (req : list PmRequirement) (usage : Z) : Z :=
  match req with
  | [] => usage
  | r :: nextMaster =>
      PmSlaveGetUsersMask_loop nextMaster
        (if req_using r then Z.lor usage (ipiMask (master r)) else usage)
  end.

Definition PmSlaveGetUsersMask (slave : PmSlave) : Z :=
  PmSlaveGetUsersMask_loop (reqs slave) 0.

(** ** Calls into other firmware modules

    A state change calls the power and clock modules and the transition
    action of the FSM. The model keeps the slave and the log of these calls,
    oldest first. The status returned by a request or by the action is
    recorded with the call.

    These functions receive a pointer to the node or to the slave. What
    they do to the power parent, the clocks and the hardware is outside
    pm_slave.c and is represented by the log only; they are taken not to
    write the fields of the slave that pm_slave.c reads (current state,
    requirement list, FSM tables). *)
Inductive PmCall : Type :=
| CallPowerRequestParent (status : Z)
| CallClockRequest (status : Z)
| CallEnterState (next : Z) (status : Z)
| CallClockRelease
| CallPowerReleaseParent
| CallPowerUpdateLatencyReq (status : Z).

(** The statuses the collaborators return during one operation; each of
    them is called at most once by every entry point modelled here. *)
Record PmCollaborators : Type := mkPmCollaborators {
  PmPowerRequestParent_status : Z;
  PmClockRequest_status : Z;
  PmPowerUpdateLatencyReq_status : Z
}.

Record PmWorld : Type := mkPmWorld {
  slave_of : PmSlave;
  calls : list PmCall
}.

(** State monad over [PmWorld]. *)
Definition Pm (A : Type) : Type := PmWorld -> A * PmWorld.

Definition ret {A : Type} (a : A) : Pm A := fun w => (a, w).

Definition bind {A B : Type} (m : Pm A) (f : A -> Pm B) : Pm B :=
  fun w => let (a, w') := m w in f a w'.

Notation "x <- m ;; f" := (bind m (fun x => f))
  (at level 61, m at next level, right associativity).
Notation "m ;;; f" := (bind m (fun _ => f))
  (at level 61, right associativity).

Definition get_slave : Pm PmSlave := fun w => (slave_of w, w).

Definition update_slave (f : PmSlave -> PmSlave) : Pm unit :=
  fun w => (tt, mkPmWorld (f (slave_of w)) (calls w)).

Definition log_call (c : PmCall) : Pm unit :=
  fun w => (tt, mkPmWorld (slave_of w) (calls w ++ [c])).

Variable env : PmCollaborators.

Definition PmPowerRequestParent : Pm Z :=
  log_call (CallPowerRequestParent (PmPowerRequestParent_status env)) ;;;
  ret (PmPowerRequestParent_status env).

Definition PmClockRequest : Pm Z :=
  log_call (CallClockRequest (PmClockRequest_status env)) ;;;
  ret (PmClockRequest_status env).

Definition PmPowerUpdateLatencyReq : Pm Z :=
  log_call (CallPowerUpdateLatencyReq (PmPowerUpdateLatencyReq_status env)) ;;;
  ret (PmPowerUpdateLatencyReq_status env).

Definition PmClockRelease : Pm unit := log_call CallClockRelease.

Definition PmPowerReleaseParent : Pm unit := log_call CallPowerReleaseParent.

(** Modelled from the spec: PmNodeUpdateCurrState is defined in pm_node.c,
    which is not part of the sources at hand. The spec's Settle phase
    "update[s] the resource's recorded current state". *)
Definition PmNodeUpdateCurrState (newState : Z) : Pm unit :=
  update_slave (set_currState newState).

(** The tests [0U == (states[s] & cap)] and [0U != (states[s] & cap)]. *)
Definition lacks_cap (fsm : PmSlaveFsm) (s cap : Z) : bool :=
  Z.land (states_at fsm s) cap =? 0.

Definition newly_needs (fsm : PmSlaveFsm) (curr next cap : Z) : bool :=
  lacks_cap fsm curr cap && negb (lacks_cap fsm next cap).

(** *** PmSlavePrepareState *)
Definition PmSlavePrepareState (next : Z) : Pm Z :=
  slv <- get_slave ;;
  let curr := currState (node slv) in
  status <- (match parent (node slv) with
             | Some _ =>
                 if newly_needs (slvFsm slv) curr next PM_CAP_POWER
                 then PmPowerRequestParent
                 else ret XST_SUCCESS
             | None => ret XST_SUCCESS
             end) ;;
  if negb (status =? XST_SUCCESS) then ret status
  else if clocks (node slv) && newly_needs (slvFsm slv) curr next PM_CAP_CLOCK
       then PmClockRequest
       else ret status.

Definition no_longer_needs (fsm : PmSlaveFsm) (prev curr cap : Z) : bool :=
  negb (lacks_cap fsm prev cap) && lacks_cap fsm curr cap.

(** *** PmSlaveClearAfterState *)
Definition PmSlaveClearAfterState (prev : Z) : Pm unit :=
  slv <- get_slave ;;
  let curr := currState (node slv) in
  (if clocks (node slv) && no_longer_needs (slvFsm slv) prev curr PM_CAP_CLOCK
   then PmClockRelease else ret tt) ;;;
  match parent (node slv) with
  | Some _ =>
      if no_longer_needs (slvFsm slv) prev curr PM_CAP_POWER
      then PmPowerReleaseParent else ret tt
  | None => ret tt
  end.

(** *** PmSlaveChangeState

    [tran_matches] is the negation of the [continue] test of the loop.
    [PmSlaveChangeState_apply] is the part between the call of
    [PmSlavePrepareState] and the label [done]: the initial status chosen
    from [transCnt] and the transition loop. *)
Definition tran_matches (fsm : PmSlaveFsm) (curr state t : Z) : bool :=
  negb (negb (fromState (trans_at fsm t) =? curr)
        || negb (toState (trans_at fsm t) =? state)).

Definition PmSlaveChangeState_apply (state : Z) : Pm Z :=
  slave <- get_slave ;;
  let fsm := slvFsm slave in
  let status := if transCnt fsm =? 0 then XST_SUCCESS else XST_FAILURE in
  match first_index (tran_matches fsm (currState (node slave)) state)
                    0 (transCnt fsm) with
  | None => ret status
  | Some _ =>
      match enterState fsm with
      | Some action =>
          let status := action (currState (node slave)) state in
          log_call (CallEnterState state status) ;;; ret status
      | None => ret XST_SUCCESS
      end
  end.

Definition PmSlaveChangeState (state : Z) : Pm Z :=
  slave <- get_slave ;;
  let oldState := currState (node slave) in
  status <- PmSlavePrepareState state ;;
  status <- (if negb (status =? XST_SUCCESS) then ret status
             else PmSlaveChangeState_apply state) ;;
  (if negb (oldState =? state) && (status =? XST_SUCCESS)
   then PmNodeUpdateCurrState state ;;; PmSlaveClearAfterState oldState
   else ret tt) ;;;
  ret status.

(** *** PmUpdateSlave

    [PmUpdateSlave_resolve] is the first part of the function, up to the
    assignment of the latency margin: it yields [inl status] on the two
    [goto done] exits and otherwise [inr (state, minLat, wkupLat)], the
    values of the three local variables when the margin is assigned. *)
Definition PmUpdateSlave_resolve (slave : PmSlave) : Z + (Z * Z * Z) :=
  let state := 0 in
  let caps := PmGetMaxCapabilities slave in
  let '(status, state) :=
    if negb (0 =? caps)
    then match PmGetStateWithCaps slave caps (Some state) with
         | (status, Some found) => (status, found)
         | (status, None) => (status, state)
         end
    else (XST_SUCCESS, state) in
  if negb (status =? XST_SUCCESS) then inl status
  else
    let minLat := PmGetMinRequestedLatency slave in
    let wkupLat := PmGetLatencyFromState slave state in
    if wkupLat >? minLat then
      let '(status, state) := PmConstrainStateByLatency slave state caps minLat in
      if negb (status =? XST_SUCCESS) then inl status
      else inr (state, minLat, PmGetLatencyFromState slave state)
    else inr (state, minLat, wkupLat).

(** Modelled from the spec: the macro HAS_CAPABILITIES is defined in
    pm_slave.h, which is not part of the sources at hand. The spec reads
    the test as "[the state] does not include the powered capability". *)
Definition HAS_CAPABILITIES (slave : PmSlave) (state caps : Z) : bool :=
  caps =? Z.land caps (states_at (slvFsm slave) state).

Definition PmUpdateSlave : Pm Z :=
  slave <- get_slave ;;
  match PmUpdateSlave_resolve slave with
  | inl status => ret status
  | inr (state, minLat, wkupLat) =>
      update_slave (set_latencyMarg (wrap32 (minLat - wkupLat))) ;;;
      if negb (state =? currState (node slave))
      then PmSlaveChangeState state
      else if negb (HAS_CAPABILITIES slave state PM_CAP_POWER)
           then PmPowerUpdateLatencyReq
           else ret XST_SUCCESS
  end.

(** *** PmSlaveForceDown *)

(** Modelled from the spec: PmRequirementClear is defined in
    pm_requirement.c, which is not part of the sources at hand. The spec:
    "mark an entry inactive (clear usage flag, zeroing its granted
    capability and latency contribution) without deallocating it". *)
Definition PmRequirementClear (req : PmRequirement) : PmRequirement :=
  mkPmRequirement (master req)
                  (Z.ldiff (info req) PM_MASTER_USING_SLAVE_MASK)
                  0
                  MAX_LATENCY.

Fixpoint PmSlaveForceDown_loop (req : list PmRequirement) : list PmRequirement :=
  match req with
  | [] => []
  | r :: nextMaster =>
      (if req_using r then PmRequirementClear r else r)
      :: PmSlaveForceDown_loop nextMaster
  end.

Definition PmSlaveForceDown : Pm Z :=
  update_slave (fun slave => set_reqs (PmSlaveForceDown_loop (reqs slave)) slave) ;;;
  slave <- get_slave ;;
  if negb (0 =? currState (node slave))
  then PmSlaveChangeState 0
  else ret XST_SUCCESS.

(** *** PmSlaveGetWakeUpLatency

    [lat] is the value of [*lat] on entry; the result is the status and the
    value of [*lat] on return, or [None] when the function dereferences a
    NULL power parent. *)
Definition PmSlaveGetWakeUpLatency (slave : PmSlave) (lat : Z) : option (Z * Z) :=
  match parent (node slave) with
  | None => None
  | Some powerNode =>
      let lat := PmGetLatencyFromState slave (currState (node slave)) in
      match getWakeUpLatency powerNode with
      | None => Some (XST_NO_FEATURE, lat)
      | Some (status, latency) =>
          if status =? XST_SUCCESS
          then Some (status, wrap32 (lat + latency))
          else Some (status, lat)
      end
  end.

(** *** PmSlaveSetConfig

    [PmGetMasterByIpiMask] (pm_master.c) and [PmRequirementAdd]
    (pm_requirement.c) are parameters of the model. *)
Section Config.

Variable PmGetMasterByIpiMask : Z -> option PmMaster.
Variable PmRequirementAdd : PmMaster -> PmSlave -> Z * PmSlave.

Fixpoint PmSlaveSetConfig_loop (n : nat) (masterIpiMasks : Z) (slave : PmSlave)
  : Z * PmSlave :=
  match n with
  | O => (XST_SUCCESS, slave)
  | S n' =>
      let ipiMask := wrap32 (Z.shiftl 1 (ctz32 masterIpiMasks)) in
      match PmGetMasterByIpiMask ipiMask with
      | None => (XST_FAILURE, slave)
      | Some master =>
          let '(status, slave') := PmRequirementAdd master slave in
          if negb (status =? XST_SUCCESS) then (status, slave')
          else PmSlaveSetConfig_loop n' (Z.ldiff masterIpiMasks ipiMask) slave'
      end
  end.

Definition PmSlaveSetConfig (slave : PmSlave) (policy perms : Z) : Z * PmSlave :=
  let slave :=
    if negb (0 =? Z.land policy PM_SLAVE_FLAG_IS_SHAREABLE)
    then set_flags (Z.lor (flags slave) PM_SLAVE_FLAG_IS_SHAREABLE) slave
    else slave in
  let masterCnt := popcount32 perms in
  PmSlaveSetConfig_loop (Z.to_nat masterCnt) perms slave.

End Config.

(** Modelled from the spec: PmRequirementAdd is defined in
    pm_requirement.c, which is not part of the sources at hand. The spec:
    Configure "creates (or reuses) its RequirementLedger binding to the
    resource"; a new entry is inactive. Masters are told apart by their
    identifying mask. *)
Definition PmRequirementAdd_model (m : PmMaster) (slave : PmSlave) : Z * PmSlave :=
  if existsb (fun r => ipiMask (master r) =? ipiMask m) (reqs slave)
  then (XST_SUCCESS, slave)
  else (XST_SUCCESS,
        set_reqs (mkPmRequirement m 0 0 MAX_LATENCY :: reqs slave) slave).

End Model.

Arguments PmSlaveSetConfig {K} PmGetMasterByIpiMask PmRequirementAdd slave policy perms.
Arguments PmSlaveSetConfig_loop {K} PmGetMasterByIpiMask PmRequirementAdd n masterIpiMasks slave.

(** ** Properties the operations are checked against *)

Section Properties.

Context {K : PmConstants}.

(** State [i] offers every capability of [caps]. *)
Definition superset_state (fsm : PmSlaveFsm) (caps i : Z) : Prop :=
  Z.land caps (states_at fsm i) = caps.

(** [i] is the lowest index of the state table whose mask is a superset of
    [caps]. *)
Definition lowest_superset (fsm : PmSlaveFsm) (caps i : Z) : Prop :=
  0 <= i < statesCnt fsm /\ superset_state fsm caps i
  /\ forall j, 0 <= j < i -> ~ superset_state fsm caps j.

(** State [i] offers [caps] and its latency to the highest state is within
    the bound [b]. *)
Definition within_bound (slave : PmSlave) (caps b i : Z) : Prop :=
  superset_state (slvFsm slave) caps i /\ PmGetLatencyFromState slave i <= b.

(** [t] is the first entry of the transition table that leads from [state]
    to the highest-index state. *)
Definition first_tran_to_highest (fsm : PmSlaveFsm) (state t : Z) : Prop :=
  0 <= t < transCnt fsm
  /\ fromState (trans_at fsm t) = state
  /\ toState (trans_at fsm t) = highestState fsm
  /\ forall u, 0 <= u < t ->
       ~ (fromState (trans_at fsm u) = state
          /\ toState (trans_at fsm u) = highestState fsm).

(** The bitwise OR of the granted capabilities of the entries in use. *)
Definition or_of_using (l : list PmRequirement) : Z :=
  fold_right Z.lor 0 (map currReq (filter req_using l)).

(** Every field of the slave that takes part in the latency computation is
    a [u32]. *)
Definition latencies_u32 (slave : PmSlave) : bool :=
  forallb (fun t => is_u32 (latency t)) (trans (slvFsm slave))
  && forallb (fun r => is_u32 (latencyReq r)) (reqs slave).

(** The statement "with zero aggregated capabilities the pass resolves to
    state 0". *)
Definition zero_caps_resolve_to_state0 (slave : PmSlave) : Prop :=
  PmGetMaxCapabilities slave = 0 ->
  forall state minLat wkupLat,
    PmUpdateSlave_resolve slave = inr (state, minLat, wkupLat) -> state = 0.

(** Release calls, and the statement "every acquisition that succeeded is
    released later in the log". *)
Definition is_release (c : PmCall) : bool :=
  match c with
  | CallClockRelease | CallPowerReleaseParent => true
  | _ => false
  end.

Definition is_power_release (c : PmCall) : bool :=
  match c with CallPowerReleaseParent => true | _ => false end.

Definition is_clock_release (c : PmCall) : bool :=
  match c with CallClockRelease => true | _ => false end.

Fixpoint acquisitions_released (l : list PmCall) : bool :=
  match l with
  | [] => true
  | c :: later =>
      match c with
      | CallPowerRequestParent status =>
          if status =? XST_SUCCESS then existsb is_power_release later else true
      | CallClockRequest status =>
          if status =? XST_SUCCESS then existsb is_clock_release later else true
      | _ => true
      end && acquisitions_released later
  end.

Definition aborted_change_releases (env : PmCollaborators) (slave : PmSlave)
  (state : Z) : Prop :=
  let r := PmSlaveChangeState env state (mkPmWorld slave []) in
  fst r <> XST_SUCCESS -> acquisitions_released (calls (snd r)) = true.

(** The one-hot masks of the bits set in [perms], lowest bit first. *)
Definition masks_of (perms : Z) : list Z :=
  map (Z.shiftl 1) (filter (Z.testbit perms) bit_positions).

(** The statement "a configuration call that meets an unknown mask leaves
    the requirement list as it was". *)
Definition unresolved_config_leaves_no_binding
  (PmGetMasterByIpiMask : Z -> option PmMaster)
  (PmRequirementAdd : PmMaster -> PmSlave -> Z * PmSlave)
  (slave : PmSlave) (policy perms : Z) : Prop :=
  (exists m, In m (masks_of perms) /\ PmGetMasterByIpiMask m = None) ->
  fst (PmSlaveSetConfig PmGetMasterByIpiMask PmRequirementAdd slave policy perms)
    <> XST_SUCCESS
  /\ reqs (snd (PmSlaveSetConfig PmGetMasterByIpiMask PmRequirementAdd
                                 slave policy perms)) = reqs slave.

(** The requirement list after binding the masters [ms] in turn, when every
    [PmRequirementAdd] succeeds. *)
Fixpoint bind_all (PmRequirementAdd : PmMaster -> PmSlave -> Z * PmSlave)
  (ms : list PmMaster) (slave : PmSlave) : PmSlave :=
  match ms with
  | [] => slave
  | m :: rest => bind_all PmRequirementAdd rest (snd (PmRequirementAdd m slave))
  end.

(** The outcomes of a prepare phase: its status and the calls it makes, in
    order. The clock request is only reached when the power request was
    not made or succeeded. *)
Definition prepare_outcome (env : PmCollaborators) (status : Z)
  (l : list PmCall) : Prop :=
  (l = [] /\ status = XST_SUCCESS)
  \/ (l = [CallPowerRequestParent (PmPowerRequestParent_status env)]
      /\ status = PmPowerRequestParent_status env)
  \/ (l = [CallClockRequest (PmClockRequest_status env)]
      /\ status = PmClockRequest_status env)
  \/ (PmPowerRequestParent_status env = XST_SUCCESS
      /\ l = [CallPowerRequestParent (PmPowerRequestParent_status env);
              CallClockRequest (PmClockRequest_status env)]
      /\ status = PmClockRequest_status env).

(** An acquisition call that succeeded. *)
Definition is_acquired (c : PmCall) : bool :=
  match c with
  | CallPowerRequestParent status | CallClockRequest status =>
      status =? XST_SUCCESS
  | _ => false
  end.

Definition no_release (l : list PmCall) : bool :=
  forallb (fun c => negb (is_release c)) l.

(** The configuration loop run over an explicit list of one-hot masks. *)
Fixpoint config_over
  (PmGetMasterByIpiMask : Z -> option PmMaster)
  (PmRequirementAdd : PmMaster -> PmSlave -> Z * PmSlave)
  (masks : list Z) (slave : PmSlave) : Z * PmSlave :=
  match masks with
  | [] => (XST_SUCCESS, slave)
  | ipiMask :: rest =>
      match PmGetMasterByIpiMask ipiMask with
      | None => (XST_FAILURE, slave)
      | Some m =>
          let '(status, slave') := PmRequirementAdd m slave in
          if negb (status =? XST_SUCCESS) then (status, slave')
          else config_over PmGetMasterByIpiMask PmRequirementAdd rest slave'
      end
  end.

(** The slave after the policy part of [PmSlaveSetConfig]. *)
Definition with_policy (policy : Z) (slave : PmSlave) : PmSlave :=
  if negb (0 =? Z.land policy PM_SLAVE_FLAG_IS_SHAREABLE)
  then set_flags (Z.lor (flags slave) PM_SLAVE_FLAG_IS_SHAREABLE) slave
  else slave.

(** Master [m] has an entry in the requirement list of the slave. *)
Definition bound_to (m : PmMaster) (slave : PmSlave) : bool :=
  existsb (fun r => ipiMask (master r) =? ipiMask m) (reqs slave).

End Properties.

(** ** Further operations of pm_slave.c

    The queries over the requirement list, the admission check and the
    configuration reset. [PM_CAP_WAKEUP] (pm_defs.h), the two usage status
    bits and [XST_PM_NODE_USED] (pm_defs.h) are declared outside
    pm_slave.c and are parameters. *)
Section Queries.

Context {K : PmConstants}.

Variable PM_CAP_WAKEUP : Z.
Variable PM_USAGE_CURRENT_MASTER : Z.
Variable PM_USAGE_OTHER_MASTER : Z.
Variable XST_PM_NODE_USED : Z.

(** *** PmSlaveHasWakeUpCap

    [wake] is the slave's pointer to the GIC proxy wake: [false] for NULL. *)
Definition PmSlaveHasWakeUpCap (wake : bool) (slv : PmSlave) : Z :=
  if negb wake then XST_NO_FEATURE
  else PmCheckCapabilities slv PM_CAP_WAKEUP.

(** *** PmSlaveGetUsageStatus

    [master == req->master] compares two pointers; a master is identified
    by its [ipiMask], which is unique to it. *)
Definition same_master (a b : PmMaster) : bool := ipiMask a =? ipiMask b.

(** The test [0U != (req->info & PM_MASTER_USING_SLAVE_MASK)]. *)
Definition req_in_use (req : PmRequirement) : bool :=
  negb (Z.land (info req) PM_MASTER_USING_SLAVE_MASK =? 0).

Fixpoint PmSlaveGetUsageStatus_loop (m : PmMaster) (req : list PmRequirement)
  (usageStatus : Z) : Z :=
  match req with
  | [] => usageStatus
  | r :: nextMaster =>
      PmSlaveGetUsageStatus_loop m nextMaster
        (if req_in_use r
         then (if same_master m (master r)
               then Z.lor usageStatus PM_USAGE_CURRENT_MASTER
               else Z.lor usageStatus PM_USAGE_OTHER_MASTER)
         else usageStatus)
  end.

Definition PmSlaveGetUsageStatus (slave : PmSlave) (m : PmMaster) : Z :=
  PmSlaveGetUsageStatus_loop m (reqs slave) 0.

(** *** PmSlaveVerifyRequest *)
Definition PmSlaveVerifyRequest (slave : PmSlave) : Z :=
  if negb (0 =? Z.land PM_SLAVE_FLAG_IS_SHAREABLE (flags slave))
  then XST_SUCCESS
  else
    let usage := PmSlaveGetUsersMask slave in
    if 0 =? usage then XST_SUCCESS else XST_PM_NODE_USED.

(** *** PmSlaveClearConfig *)
Definition PmSlaveClearConfig (slave : PmSlave) : PmSlave :=
  set_flags 0 (set_reqs [] slave).

End Queries.

(** ** Further properties *)

Section MoreProperties.

Context {K : PmConstants}.

(** [i] is the lowest state that offers [caps] with a latency to the
    highest state within [b]. *)
Definition lowest_within_bound (slave : PmSlave) (caps b i : Z) : Prop :=
  0 <= i < statesCnt (slvFsm slave) /\ within_bound slave caps b i
  /\ forall j, 0 <= j < i -> ~ within_bound slave caps b j.

(** The bitwise OR of the masks of the masters in use. *)
Definition or_of_users (l : list PmRequirement) : Z :=
  fold_right Z.lor 0 (map (fun r => ipiMask (master r)) (filter req_using l)).

(** Requirements with an explicit latency bound. *)
Definition req_sets_latency (r : PmRequirement) : bool :=
  negb (Z.land PM_MASTER_SET_LATENCY_REQ (info r) =? 0).

(** The acquisition calls of a prepare phase and the release calls of a
    settle phase, read off the capability masks of the two states. *)
Definition wants_power_request (slave : PmSlave) (next : Z) : bool :=
  match parent (node slave) with
  | Some _ => newly_needs (slvFsm slave) (currState (node slave)) next PM_CAP_POWER
  | None => false
  end.

Definition wants_clock_request (slave : PmSlave) (next : Z) : bool :=
  clocks (node slave)
  && newly_needs (slvFsm slave) (currState (node slave)) next PM_CAP_CLOCK.

Definition prepare_log (env : PmCollaborators) (slave : PmSlave) (next : Z)
  : list PmCall :=
  if wants_power_request slave next then
    CallPowerRequestParent (PmPowerRequestParent_status env)
    :: (if negb (PmPowerRequestParent_status env =? XST_SUCCESS) then []
        else if wants_clock_request slave next
             then [CallClockRequest (PmClockRequest_status env)] else [])
  else if wants_clock_request slave next
       then [CallClockRequest (PmClockRequest_status env)] else [].

Definition wants_clock_release (slave : PmSlave) (prev curr : Z) : bool :=
  clocks (node slave) && no_longer_needs (slvFsm slave) prev curr PM_CAP_CLOCK.

Definition wants_power_release (slave : PmSlave) (prev curr : Z) : bool :=
  match parent (node slave) with
  | Some _ => no_longer_needs (slvFsm slave) prev curr PM_CAP_POWER
  | None => false
  end.

Definition settle_log (slave : PmSlave) (prev curr : Z) : list PmCall :=
  (if wants_clock_release slave prev curr then [CallClockRelease] else [])
  ++ (if wants_power_release slave prev curr then [CallPowerReleaseParent]
      else []).

(** The transition table has an entry from [curr] to [next]. *)
Definition has_transition (fsm : PmSlaveFsm) (curr next : Z) : Prop :=
  exists t, 0 <= t < transCnt fsm
            /\ fromState (trans_at fsm t) = curr
            /\ toState (trans_at fsm t) = next.

End MoreProperties.

(** ** Concrete constants and tables

    The values of the ZynqMP headers, and small tables in the style of the
    firmware's slave definitions. *)
Definition zynqmp : PmConstants :=
  {| XST_SUCCESS := 0;
     XST_FAILURE := 1;
     XST_NO_FEATURE := 19;
     XST_PM_CONFLICT := 2001;
     PM_MASTER_USING_SLAVE_MASK := 2;
     PM_MASTER_SET_LATENCY_REQ := 4;
     PM_CAP_POWER := 8;
     PM_CAP_CLOCK := 16;
     PM_SLAVE_FLAG_IS_SHAREABLE := 1;
     PmStateId_bits := 8;
     XST_FAILURE_is_error := ltac:(discriminate);
     XST_NO_FEATURE_is_error := ltac:(discriminate);
     XST_PM_CONFLICT_is_error := ltac:(discriminate) |}.

(** Three states: off, powered, powered and clocked (spec, S1). *)
Definition fsm3 : PmSlaveFsm :=
  mkPmSlaveFsm [0; 8; 24] None
    [ mkPmStateTran 50 0 2; mkPmStateTran 0 2 0;
      mkPmStateTran 50 1 2; mkPmStateTran 0 2 1;
      mkPmStateTran 20 0 1; mkPmStateTran 0 1 0 ].

Definition master_apu : PmMaster := mkPmMaster 1.
Definition master_rpu : PmMaster := mkPmMaster 2.

(** Two masters in use, asking for the clock and for power. *)
Definition slave3 : PmSlave :=
  mkPmSlave (mkPmNode (Some (mkPmPower None)) true 0 0)
            [ mkPmRequirement master_apu 2 16 MAX_LATENCY;
              mkPmRequirement master_rpu 6 8 60 ]
            fsm3 0.

(** Two states; leaving state 0 for the top state costs 100. One master
    holds the slave with no capability and a latency bound of 10. *)
Definition fsm2 : PmSlaveFsm :=
  mkPmSlaveFsm [0; 8] None [ mkPmStateTran 100 0 1; mkPmStateTran 0 1 0 ].

Definition slave_idle_bounded : PmSlave :=
  mkPmSlave (mkPmNode None false 0 0)
            [ mkPmRequirement master_apu 6 0 10 ]
            fsm2 0.

(** A slave with a power parent and clocks in state 0 whose state 1 needs
    both; the power request succeeds and the clock request fails. *)
Definition fsm_pc : PmSlaveFsm :=
  mkPmSlaveFsm [0; 24] None [ mkPmStateTran 30 0 1; mkPmStateTran 0 1 0 ].

Definition slave_pc : PmSlave :=
  mkPmSlave (mkPmNode (Some (mkPmPower None)) true 0 0) [] fsm_pc 0.

Definition env_clock_fails : PmCollaborators := mkPmCollaborators 0 1 0.
Definition env_ok : PmCollaborators := mkPmCollaborators 0 0 0.

(** Only the master with mask 1 is known. *)
Definition only_apu (m : Z) : option PmMaster :=
  if m =? 1 then Some master_apu else None.

Definition slave_unbound : PmSlave :=
  mkPmSlave (mkPmNode None false 0 0) [] fsm2 0.

(** As [fsm_pc], but the table has no entry from state 0 to state 1. *)
Definition fsm_no_edge : PmSlaveFsm :=
  mkPmSlaveFsm [0; 24] None [ mkPmStateTran 0 1 0 ].

Definition slave_no_edge : PmSlave :=
  mkPmSlave (mkPmNode (Some (mkPmPower None)) true 0 0) [] fsm_no_edge 0.

(** A master that asks for a capability no state of [fsm3] offers. *)
Definition slave_conflict : PmSlave :=
  mkPmSlave (mkPmNode (Some (mkPmPower None)) true 0 0)
            [ mkPmRequirement master_apu 2 32 MAX_LATENCY ]
            fsm3 0.

(** [slave3] with one master only, asking for power with no latency bound. *)
Definition slave_power_only : PmSlave :=
  mkPmSlave (mkPmNode (Some (mkPmPower None)) true 0 0)
            [ mkPmRequirement master_apu 2 8 MAX_LATENCY ]
            fsm3 0.

(** The masters with mask 1 and mask 2 are known. *)
Definition both_known (m : Z) : option PmMaster :=
  if m =? 1 then Some master_apu
  else if m =? 2 then Some master_rpu
  else None.

(** ** Proof automation for the state monad *)

Ltac pm_unfold :=
  unfold PmSlavePrepareState, PmSlaveClearAfterState, PmSlaveChangeState_apply,
    PmPowerRequestParent, PmClockRequest, PmPowerUpdateLatencyReq,
    PmClockRelease, PmPowerReleaseParent, PmNodeUpdateCurrState,
    bind, ret, get_slave, update_slave, log_call.

Ltac pm_case :=
  match goal with
  | |- context [match parent ?n with _ => _ end] => destruct (parent n) eqn:?
  | |- context [match enterState ?f with _ => _ end] =>
      destruct (enterState f) eqn:?
  | |- context [match first_index ?p ?a ?b with _ => _ end] =>
      destruct (first_index p a b) eqn:?
  | |- context [if ?c then _ else _] => destruct c eqn:?
  end; cbn [fst snd slave_of calls negb andb] in *.

(** Equations between bitwise ORs, checked bit by bit. *)
Ltac lor_bits :=
  apply Z.bits_inj'; intros ? ?; rewrite ?Z.lor_spec, ?Z.bits_0;
  repeat match goal with
         | |- context [Z.testbit ?a ?n] => destruct (Z.testbit a n)
         end;
  reflexivity.

(** ** Proofs *)

Section Proofs.

Context {K : PmConstants}.

(** *** The search loop *)

Lemma scan_from_Some (p : Z -> bool) (n : nat) :
  forall i k,
    scan_from p n i = Some k <->
    (i <= k < i + Z.of_nat n /\ p k = true
     /\ forall j, i <= j < k -> p j = false).
Proof.
  induction n as [|n IH]; intros i k; cbn [scan_from].
  - split; [discriminate | lia].
  - destruct (p i) eqn:Hpi.
    + split.
      * intros [= <-]. split; [lia|]. split; [exact Hpi|]. intros j Hj; lia.
      * intros (Hr & Hk & Hlow).
        destruct (Z.eq_dec i k) as [->|Hne]; [reflexivity|].
        rewrite (Hlow i) in Hpi by lia. discriminate.
    + rewrite IH. split.
      * intros (Hr & Hk & Hlow). repeat split; try lia; [exact Hk|].
        intros j Hj. destruct (Z.eq_dec j i) as [->|Hne]; [exact Hpi|].
        apply Hlow; lia.
      * intros (Hr & Hk & Hlow).
        assert (i <> k) by (intros ->; congruence).
        repeat split; try lia; [exact Hk|].
        intros j Hj. apply Hlow; lia.
Qed.

Lemma scan_from_None (p : Z -> bool) (n : nat) :
  forall i,
    scan_from p n i = None <->
    (forall j, i <= j < i + Z.of_nat n -> p j = false).
Proof.
  induction n as [|n IH]; intros i; cbn [scan_from].
  - split; [intros _ j Hj; lia | reflexivity].
  - destruct (p i) eqn:Hpi.
    + split; [discriminate|].
      intros Hall. rewrite (Hall i) in Hpi by lia. discriminate.
    + rewrite IH. split.
      * intros Hall j Hj. destruct (Z.eq_dec j i) as [->|Hne]; [exact Hpi|].
        apply Hall; lia.
      * intros Hall j Hj. apply Hall; lia.
Qed.

Lemma first_index_Some (p : Z -> bool) (lo hi k : Z) :
  first_index p lo hi = Some k <->
  (lo <= k < hi /\ p k = true /\ forall j, lo <= j < k -> p j = false).
Proof.
  unfold first_index. rewrite scan_from_Some.
  destruct (Z_le_gt_dec lo hi) as [Hle|Hgt].
  - rewrite Z2Nat.id by lia. split; intros (Hr & Hrest); (split; [lia | exact Hrest]).
  - replace (Z.to_nat (hi - lo)) with O by lia. cbn. split; intros (Hr & _); lia.
Qed.

Lemma first_index_None (p : Z -> bool) (lo hi : Z) :
  first_index p lo hi = None <-> (forall j, lo <= j < hi -> p j = false).
Proof.
  unfold first_index. rewrite scan_from_None.
  destruct (Z_le_gt_dec lo hi) as [Hle|Hgt].
  - rewrite Z2Nat.id by lia. split; intros Hall j Hj; apply Hall; lia.
  - replace (Z.to_nat (hi - lo)) with O by lia. cbn.
    split; intros _ j Hj; lia.
Qed.

Lemma state_has_caps_iff (fsm : PmSlaveFsm) (caps i : Z) :
  state_has_caps fsm caps i = true <-> superset_state fsm caps i.
Proof. unfold state_has_caps, superset_state. apply Z.eqb_eq. Qed.

Lemma state_has_caps_false (fsm : PmSlaveFsm) (caps i : Z) :
  state_has_caps fsm caps i = false <-> ~ superset_state fsm caps i.
Proof. unfold state_has_caps, superset_state. apply Z.eqb_neq. Qed.

(** *** State selection *)

Lemma PmGetStateWithCaps_found (slave : PmSlave) (caps cell i : Z) :
  PmGetStateWithCaps slave caps (Some cell) = (XST_SUCCESS, Some i) <->
  lowest_superset (slvFsm slave) caps i.
Proof.
  unfold PmGetStateWithCaps, lowest_superset.
  destruct (first_index _ 0 _) as [k|] eqn:Hscan.
  - apply first_index_Some in Hscan. destruct Hscan as (Hr & Hk & Hlow).
    apply state_has_caps_iff in Hk. split.
    + intros [= <-]. repeat split; try lia; [exact Hk|].
      intros j Hj. apply state_has_caps_false. apply Hlow; lia.
    + intros (Hri & Hi & Hlowi).
      destruct (Z.lt_trichotomy i k) as [Hlt|[->|Hgt]]; [|reflexivity|].
      * exfalso. apply state_has_caps_iff in Hi.
        rewrite Hlow in Hi by lia. discriminate.
      * exfalso. apply (Hlowi k); [lia | exact Hk].
  - split.
    + intros [= Hne]. exfalso. now apply XST_PM_CONFLICT_is_error.
    + intros (Hri & Hi & _). exfalso.
      rewrite first_index_None in Hscan. apply state_has_caps_iff in Hi.
      rewrite Hscan in Hi by lia. discriminate.
Qed.

Lemma PmGetStateWithCaps_conflict (slave : PmSlave) (caps : Z) (state : option Z) :
  fst (PmGetStateWithCaps slave caps state) = XST_PM_CONFLICT <->
  (forall j, 0 <= j < statesCnt (slvFsm slave) ->
             ~ superset_state (slvFsm slave) caps j).
Proof.
  unfold PmGetStateWithCaps.
  destruct (first_index _ 0 _) as [k|] eqn:Hscan; cbn [fst].
  - apply first_index_Some in Hscan. destruct Hscan as (Hr & Hk & _).
    apply state_has_caps_iff in Hk. split.
    + intros Heq. exfalso. now apply XST_PM_CONFLICT_is_error.
    + intros Hnone. exfalso. apply (Hnone k); [lia | exact Hk].
  - rewrite first_index_None in Hscan. split; [|reflexivity].
    intros _ j Hj. apply state_has_caps_false. apply Hscan; lia.
Qed.

(** C1. [PmGetStateWithCaps] returns success with the lowest index of the
    state table whose capability mask is a superset of [caps] (bitwise AND
    with [caps] gives [caps]), and returns [XST_PM_CONFLICT] if and only if
    no state of the table is a superset of [caps]; there is no third
    outcome, the status does not depend on the out-pointer, and a conflict
    leaves the pointed-to variable as it was. *)
Theorem PmGetStateWithCaps_lowest_superset (slave : PmSlave) (caps cell : Z) :
  (forall i, PmGetStateWithCaps slave caps (Some cell) = (XST_SUCCESS, Some i)
             <-> lowest_superset (slvFsm slave) caps i)
  /\ (fst (PmGetStateWithCaps slave caps (Some cell)) = XST_PM_CONFLICT
      <-> forall j, 0 <= j < statesCnt (slvFsm slave) ->
                    ~ superset_state (slvFsm slave) caps j)
  /\ ((exists i, PmGetStateWithCaps slave caps (Some cell) = (XST_SUCCESS, Some i))
      \/ PmGetStateWithCaps slave caps (Some cell) = (XST_PM_CONFLICT, Some cell))
  /\ fst (PmGetStateWithCaps slave caps None)
     = fst (PmGetStateWithCaps slave caps (Some cell)).
Proof.
  split; [intros i; apply PmGetStateWithCaps_found|].
  split; [apply PmGetStateWithCaps_conflict|].
  unfold PmGetStateWithCaps.
  destruct (first_index _ 0 _) as [k|]; split; cbn [fst]; try reflexivity.
  - left. exists k. reflexivity.
  - right. reflexivity.
Qed.

(** *** Capability aggregation *)

Lemma PmGetMaxCapabilities_loop_acc (l : list PmRequirement) :
  forall acc,
    PmGetMaxCapabilities_loop l acc = Z.lor acc (or_of_using l).
Proof.
  unfold or_of_using.
  induction l as [|r l IH]; intros acc; cbn [PmGetMaxCapabilities_loop filter].
  - cbn. now rewrite Z.lor_0_r.
  - rewrite IH. destruct (req_using r); cbn [map fold_right].
    + now rewrite Z.lor_assoc.
    + reflexivity.
Qed.

Lemma or_of_using_testbit (l : list PmRequirement) (n : Z) :
  Z.testbit (or_of_using l) n
  = existsb (fun r => req_using r && Z.testbit (currReq r) n) l.
Proof.
  unfold or_of_using.
  induction l as [|r l IH]; cbn [filter existsb].
  - cbn. apply Z.bits_0.
  - destruct (req_using r); cbn [map fold_right andb orb].
    + rewrite Z.lor_spec, IH. reflexivity.
    + exact IH.
Qed.

Lemma or_of_using_none (l : list PmRequirement) :
  forallb (fun r => negb (req_using r)) l = true -> or_of_using l = 0.
Proof.
  unfold or_of_using.
  induction l as [|r l IH]; cbn [forallb filter]; [reflexivity|].
  intros H. apply andb_true_iff in H. destruct H as [Hr Hl].
  destruct (req_using r); [discriminate|]. now apply IH.
Qed.

(** C7. [PmGetMaxCapabilities] is exactly the bitwise OR of the [currReq]
    fields of the requirements whose using flag is set: bit by bit, a
    capability is in the result if and only if some requirement in use
    asks for it; requirements with the flag cleared can be dropped from
    the list without changing the result; with no requirement in use the
    result is zero. *)
Theorem PmGetMaxCapabilities_or_of_using (slave : PmSlave) :
  PmGetMaxCapabilities slave = or_of_using (reqs slave)
  /\ (forall n, Z.testbit (PmGetMaxCapabilities slave) n
                = existsb (fun r => req_using r && Z.testbit (currReq r) n)
                          (reqs slave))
  /\ PmGetMaxCapabilities (set_reqs (filter req_using (reqs slave)) slave)
     = PmGetMaxCapabilities slave
  /\ (forallb (fun r => negb (req_using r)) (reqs slave) = true
      -> PmGetMaxCapabilities slave = 0).
Proof.
  assert (Heq : forall s, PmGetMaxCapabilities s = or_of_using (reqs s)).
  { intros s. unfold PmGetMaxCapabilities.
    rewrite PmGetMaxCapabilities_loop_acc. apply Z.lor_0_l. }
  split; [apply Heq|]. split; [|split].
  - intros n. rewrite Heq. apply or_of_using_testbit.
  - rewrite !Heq. cbn [set_reqs reqs]. unfold or_of_using.
    f_equal. f_equal. clear. induction (reqs slave) as [|r l IH]; [reflexivity|].
    cbn [filter]. destruct (req_using r) eqn:Hr; cbn [filter].
    + rewrite Hr. now f_equal.
    + exact IH.
  - intros Hnone. rewrite Heq. now apply or_of_using_none.
Qed.

(** *** Latency to the highest state *)

Lemma castStateId_small (x : Z) :
  0 <= x < 2 ^ PmStateId_bits -> castStateId x = x.
Proof. intros Hx. unfold castStateId. now apply Z.mod_small. Qed.

Lemma highestState_last (fsm : PmSlaveFsm) :
  0 < statesCnt fsm < 2 ^ PmStateId_bits ->
  highestState fsm = statesCnt fsm - 1.
Proof. intros Hc. unfold highestState. apply castStateId_small. lia. Qed.

Lemma tran_to_highest_iff (fsm : PmSlaveFsm) (state i : Z) :
  tran_to_highest fsm state i = true <->
  (fromState (trans_at fsm i) = state
   /\ toState (trans_at fsm i) = highestState fsm).
Proof.
  unfold tran_to_highest. rewrite andb_true_iff, !Z.eqb_eq.
  split; intros [H1 H2]; split; congruence.
Qed.

Lemma tran_to_highest_false (fsm : PmSlaveFsm) (state i : Z) :
  tran_to_highest fsm state i = false <->
  ~ (fromState (trans_at fsm i) = state
     /\ toState (trans_at fsm i) = highestState fsm).
Proof.
  rewrite <- tran_to_highest_iff. destruct (tran_to_highest fsm state i); split;
    congruence.
Qed.

Lemma PmGetLatencyFromState_first (slave : PmSlave) (state t : Z) :
  first_tran_to_highest (slvFsm slave) state t ->
  PmGetLatencyFromState slave state = latency (trans_at (slvFsm slave) t).
Proof.
  intros (Hr & Hf & Ht & Hlow). unfold PmGetLatencyFromState.
  assert (Hscan : first_index (tran_to_highest (slvFsm slave) state)
                              0 (transCnt (slvFsm slave)) = Some t).
  { apply first_index_Some. split; [exact Hr|]. split.
    - apply tran_to_highest_iff. now split.
    - intros u Hu. apply tran_to_highest_false. apply Hlow. lia. }
  now rewrite Hscan.
Qed.

Lemma PmGetLatencyFromState_none (slave : PmSlave) (state : Z) :
  (forall t, 0 <= t < transCnt (slvFsm slave) ->
     ~ (fromState (trans_at (slvFsm slave) t) = state
        /\ toState (trans_at (slvFsm slave) t) = highestState (slvFsm slave))) ->
  PmGetLatencyFromState slave state = 0.
Proof.
  intros Hnone. unfold PmGetLatencyFromState.
  assert (Hscan : first_index (tran_to_highest (slvFsm slave) state)
                              0 (transCnt (slvFsm slave)) = None).
  { apply first_index_None. intros j Hj. apply tran_to_highest_false.
    now apply Hnone. }
  now rewrite Hscan.
Qed.

Lemma PmGetLatencyFromState_cases (slave : PmSlave) (state : Z) :
  (exists t, first_tran_to_highest (slvFsm slave) state t
             /\ PmGetLatencyFromState slave state
                = latency (trans_at (slvFsm slave) t))
  \/ ((forall t, 0 <= t < transCnt (slvFsm slave) ->
         ~ (fromState (trans_at (slvFsm slave) t) = state
            /\ toState (trans_at (slvFsm slave) t)
               = highestState (slvFsm slave)))
      /\ PmGetLatencyFromState slave state = 0).
Proof.
  unfold PmGetLatencyFromState.
  destruct (first_index _ 0 _) as [t|] eqn:Hscan.
  - left. exists t. split; [|reflexivity].
    apply first_index_Some in Hscan. destruct Hscan as (Hr & Ht & Hlow).
    apply tran_to_highest_iff in Ht. destruct Ht as [Hf Ht].
    repeat split; try lia; try assumption.
    intros u Hu. apply tran_to_highest_false. apply Hlow. lia.
  - right. split; [|reflexivity].
    intros t Ht. apply tran_to_highest_false.
    rewrite first_index_None in Hscan. now apply Hscan.
Qed.

(** *** Latency-constrained escalation *)

Lemma constrain_ok_iff (slave : PmSlave) (caps b i : Z) :
  0 <= i < 2 ^ PmStateId_bits ->
  constrain_ok slave caps b i = true <-> within_bound slave caps b i.
Proof.
  intros Hi. unfold constrain_ok, within_bound.
  rewrite castStateId_small by exact Hi.
  rewrite andb_true_iff, state_has_caps_iff, negb_true_iff, Z.gtb_ltb, Z.ltb_ge.
  reflexivity.
Qed.

Lemma constrain_ok_false (slave : PmSlave) (caps b i : Z) :
  0 <= i < 2 ^ PmStateId_bits ->
  constrain_ok slave caps b i = false <-> ~ within_bound slave caps b i.
Proof.
  intros Hi. rewrite <- (constrain_ok_iff slave caps b i Hi).
  destruct (constrain_ok slave caps b i); split; congruence.
Qed.

Lemma PmConstrainStateByLatency_found (slave : PmSlave) (s caps b i : Z) :
  statesCnt (slvFsm slave) < 2 ^ PmStateId_bits -> 0 <= s ->
  PmConstrainStateByLatency slave s caps b = (XST_SUCCESS, i) <->
  (s <= i < statesCnt (slvFsm slave) /\ within_bound slave caps b i
   /\ forall j, s <= j < i -> ~ within_bound slave caps b j).
Proof.
  intros Hcnt Hs. unfold PmConstrainStateByLatency.
  destruct (first_index _ s _) as [k|] eqn:Hscan.
  - apply first_index_Some in Hscan. destruct Hscan as (Hr & Hk & Hlow).
    rewrite castStateId_small by lia.
    apply constrain_ok_iff in Hk; [|lia]. split.
    + intros [= <-]. split; [lia|]. split; [exact Hk|].
      intros j Hj. apply constrain_ok_false; [lia|]. apply Hlow; lia.
    + intros (Hri & Hi & Hlowi).
      destruct (Z.lt_trichotomy i k) as [Hlt|[->|Hgt]]; [|reflexivity|].
      * exfalso. apply constrain_ok_iff in Hi; [|lia].
        rewrite Hlow in Hi by lia. discriminate.
      * exfalso. apply (Hlowi k); [lia | exact Hk].
  - split.
    + intros [= Hne]. exfalso. now apply XST_PM_CONFLICT_is_error.
    + intros (Hri & Hi & _). exfalso.
      rewrite first_index_None in Hscan.
      apply constrain_ok_iff in Hi; [|lia].
      rewrite Hscan in Hi by lia. discriminate.
Qed.

Lemma PmConstrainStateByLatency_conflict (slave : PmSlave) (s caps b : Z) :
  statesCnt (slvFsm slave) < 2 ^ PmStateId_bits -> 0 <= s ->
  fst (PmConstrainStateByLatency slave s caps b) = XST_PM_CONFLICT <->
  (forall j, s <= j < statesCnt (slvFsm slave) -> ~ within_bound slave caps b j).
Proof.
  intros Hcnt Hs. unfold PmConstrainStateByLatency.
  destruct (first_index _ s _) as [k|] eqn:Hscan; cbn [fst].
  - apply first_index_Some in Hscan. destruct Hscan as (Hr & Hk & _).
    apply constrain_ok_iff in Hk; [|lia]. split.
    + intros Heq. exfalso. now apply XST_PM_CONFLICT_is_error.
    + intros Hnone. exfalso. apply (Hnone k); [lia | exact Hk].
  - rewrite first_index_None in Hscan. split; [|reflexivity].
    intros _ j Hj. apply constrain_ok_false; [lia|]. apply Hscan; lia.
Qed.

Lemma PmConstrainStateByLatency_outcome (slave : PmSlave) (s caps b : Z) :
  (exists i, PmConstrainStateByLatency slave s caps b = (XST_SUCCESS, i))
  \/ PmConstrainStateByLatency slave s caps b = (XST_PM_CONFLICT, s).
Proof.
  unfold PmConstrainStateByLatency.
  destruct (first_index _ s _) as [k|]; [left; eexists; reflexivity | now right].
Qed.

(** C3. [PmConstrainStateByLatency], started at state [s] of a slave whose
    state count fits [PmStateId], returns success with the first state
    [i >= s] whose capability mask is a superset of [caps] and whose
    [PmGetLatencyFromState] value is at most [b]; it returns
    [XST_PM_CONFLICT], leaving the state variable as it was, if and only if
    no state from [s] up to the highest one meets both conditions. The
    latency value of a state is the latency of the first transition entry
    leading from it to the highest-index state, and zero when the table has
    no such entry. *)
Theorem PmConstrainStateByLatency_first_within_bound
  (slave : PmSlave) (s caps b : Z)
  (Hcnt : statesCnt (slvFsm slave) < 2 ^ PmStateId_bits) (Hs : 0 <= s) :
  (forall i, PmConstrainStateByLatency slave s caps b = (XST_SUCCESS, i) <->
             (s <= i < statesCnt (slvFsm slave) /\ within_bound slave caps b i
              /\ forall j, s <= j < i -> ~ within_bound slave caps b j))
  /\ (fst (PmConstrainStateByLatency slave s caps b) = XST_PM_CONFLICT <->
      forall j, s <= j < statesCnt (slvFsm slave) ->
                ~ within_bound slave caps b j)
  /\ ((exists i, PmConstrainStateByLatency slave s caps b = (XST_SUCCESS, i))
      \/ PmConstrainStateByLatency slave s caps b = (XST_PM_CONFLICT, s))
  /\ (forall state t, first_tran_to_highest (slvFsm slave) state t ->
        PmGetLatencyFromState slave state = latency (trans_at (slvFsm slave) t))
  /\ (forall state,
        (forall t, 0 <= t < transCnt (slvFsm slave) ->
           ~ (fromState (trans_at (slvFsm slave) t) = state
              /\ toState (trans_at (slvFsm slave) t)
                 = highestState (slvFsm slave))) ->
        PmGetLatencyFromState slave state = 0)
  /\ (0 < statesCnt (slvFsm slave) ->
      highestState (slvFsm slave) = statesCnt (slvFsm slave) - 1).
Proof.
  split; [intros i; now apply PmConstrainStateByLatency_found|].
  split; [now apply PmConstrainStateByLatency_conflict|].
  split; [apply PmConstrainStateByLatency_outcome|].
  split; [intros state t; apply PmGetLatencyFromState_first|].
  split; [intros state; apply PmGetLatencyFromState_none|].
  intros Hpos. apply highestState_last. lia.
Qed.

(** *** The resolution part of PmUpdateSlave *)

Lemma within_bound_zero_caps (slave : PmSlave) (b i : Z) :
  within_bound slave 0 b i <-> PmGetLatencyFromState slave i <= b.
Proof.
  unfold within_bound, superset_state. rewrite Z.land_0_l. tauto.
Qed.

Lemma resolve_with_zero_caps_unfold (slave : PmSlave) :
  PmGetMaxCapabilities slave = 0 ->
  PmUpdateSlave_resolve slave =
  let minLat := PmGetMinRequestedLatency slave in
  if PmGetLatencyFromState slave 0 >? minLat then
    let '(status, state) := PmConstrainStateByLatency slave 0 0 minLat in
    if negb (status =? XST_SUCCESS) then inl status
    else inr (state, minLat, PmGetLatencyFromState slave state)
  else inr (0, minLat, PmGetLatencyFromState slave 0).
Proof.
  intros Hcaps. unfold PmUpdateSlave_resolve. rewrite Hcaps.
  cbn [Z.eqb negb]. rewrite Z.eqb_refl. reflexivity.
Qed.

(** C2, as the code has it. When the aggregated capabilities are zero and
    the latency of state 0 is within the aggregated latency bound, the
    pass resolves to state 0. When the latency of state 0 exceeds the
    bound, the pass escalates although no capability is requested: it
    resolves to the lowest state whose latency is within the bound, and
    fails with [XST_PM_CONFLICT] if and only if no state is. *)
Theorem PmUpdateSlave_resolve_zero_caps (slave : PmSlave)
  (Hcaps : PmGetMaxCapabilities slave = 0)
  (Hcnt : statesCnt (slvFsm slave) < 2 ^ PmStateId_bits) :
  let b := PmGetMinRequestedLatency slave in
  (PmGetLatencyFromState slave 0 <= b ->
   PmUpdateSlave_resolve slave = inr (0, b, PmGetLatencyFromState slave 0))
  /\ (b < PmGetLatencyFromState slave 0 ->
      (forall st,
          PmUpdateSlave_resolve slave
          = inr (st, b, PmGetLatencyFromState slave st) <->
          (0 <= st < statesCnt (slvFsm slave)
           /\ PmGetLatencyFromState slave st <= b
           /\ forall j, 0 <= j < st -> b < PmGetLatencyFromState slave j))
      /\ (PmUpdateSlave_resolve slave = inl XST_PM_CONFLICT <->
          forall j, 0 <= j < statesCnt (slvFsm slave) ->
                    b < PmGetLatencyFromState slave j)).
Proof.
  intros b. rewrite (resolve_with_zero_caps_unfold slave Hcaps).
  fold b. cbv zeta. split.
  - intros Hle. destruct (Z.gtb_spec (PmGetLatencyFromState slave 0) b); [lia|].
    reflexivity.
  - intros Hgt. destruct (Z.gtb_spec (PmGetLatencyFromState slave 0) b); [|lia].
    pose proof (PmConstrainStateByLatency_found slave 0 0 b) as Hfound.
    pose proof (PmConstrainStateByLatency_conflict slave 0 0 b Hcnt
                  (Z.le_refl 0)) as Hconf.
    destruct (PmConstrainStateByLatency_outcome slave 0 0 b) as [[i Hi]|Hc].
    + pose proof (proj1 (Hfound i Hcnt (Z.le_refl 0)) Hi) as (Hr & Hw & Hlow).
      apply within_bound_zero_caps in Hw.
      rewrite Hi. rewrite Z.eqb_refl. cbn [negb]. split.
      * intros st. split.
        -- intros [= <-]. split; [exact Hr|]. split; [exact Hw|].
           intros j Hj. specialize (Hlow j Hj).
           rewrite within_bound_zero_caps in Hlow. lia.
        -- intros (Hrs & Hws & Hlows).
           assert (Hst : PmConstrainStateByLatency slave 0 0 b
                         = (XST_SUCCESS, st)).
           { apply (Hfound st Hcnt (Z.le_refl 0)). split; [exact Hrs|].
             split; [now apply within_bound_zero_caps|].
             intros j Hj. rewrite within_bound_zero_caps.
             specialize (Hlows j Hj). lia. }
           rewrite Hi in Hst. injection Hst as <-. reflexivity.
      * split; [discriminate|]. intros Hall. exfalso.
        specialize (Hall i Hr). lia.
    + pose proof (proj1 Hconf (f_equal fst Hc)) as Hnone.
      rewrite Hc.
      destruct (Z.eqb_spec XST_PM_CONFLICT XST_SUCCESS) as [He|_];
        [now apply XST_PM_CONFLICT_is_error in He|].
      cbn [negb]. split.
      * intros st. split; [discriminate|].
        intros (Hr & Hw & _). exfalso.
        apply (Hnone st Hr). now apply within_bound_zero_caps.
      * split; [|reflexivity]. intros _ j Hj.
        pose proof (Hnone j Hj) as Hn.
        rewrite within_bound_zero_caps in Hn. lia.
Qed.

Lemma PmUpdateSlave_resolve_inr (slave : PmSlave) (state minLat wkupLat : Z) :
  PmUpdateSlave_resolve slave = inr (state, minLat, wkupLat) ->
  minLat = PmGetMinRequestedLatency slave
  /\ wkupLat = PmGetLatencyFromState slave state
  /\ wkupLat <= minLat.
Proof.
  unfold PmUpdateSlave_resolve.
  set (caps := PmGetMaxCapabilities slave).
  set (b := PmGetMinRequestedLatency slave).
  destruct (if negb (0 =? caps)
            then match PmGetStateWithCaps slave caps (Some 0) with
                 | (status, Some found) => (status, found)
                 | (status, None) => (status, 0)
                 end
            else (XST_SUCCESS, 0)) as [status st0].
  destruct (negb (status =? XST_SUCCESS)); [discriminate|].
  destruct (Z.gtb_spec (PmGetLatencyFromState slave st0) b) as [Hgt|Hle].
  - unfold PmConstrainStateByLatency.
    destruct (first_index _ st0 _) as [k|] eqn:Hscan.
    + rewrite Z.eqb_refl. cbn [negb]. intros [= <- <- <-].
      apply first_index_Some in Hscan. destruct Hscan as (_ & Hk & _).
      unfold constrain_ok in Hk. apply andb_true_iff in Hk.
      destruct Hk as [_ Hk]. apply negb_true_iff in Hk.
      rewrite Z.gtb_ltb, Z.ltb_ge in Hk. repeat split; exact Hk || reflexivity.
    + destruct (Z.eqb_spec XST_PM_CONFLICT XST_SUCCESS) as [He|_];
        [now apply XST_PM_CONFLICT_is_error in He|].
      discriminate.
  - intros [= <- <- <-]. repeat split; exact Hle || reflexivity.
Qed.

Lemma PmGetMinRequestedLatency_loop_le (l : list PmRequirement) :
  forall acc, PmGetMinRequestedLatency_loop l acc <= acc.
Proof.
  induction l as [|r l IH]; intros acc; cbn [PmGetMinRequestedLatency_loop];
    [lia|].
  destruct (negb _).
  - destruct (Z.gtb_spec acc (latencyReq r)).
    + specialize (IH (latencyReq r)). lia.
    + apply IH.
  - apply IH.
Qed.

Lemma PmGetMinRequestedLatency_loop_unset (l : list PmRequirement) :
  forall acc,
    forallb (fun r => Z.land PM_MASTER_SET_LATENCY_REQ (info r) =? 0) l = true ->
    PmGetMinRequestedLatency_loop l acc = acc.
Proof.
  induction l as [|r l IH]; intros acc H; cbn [PmGetMinRequestedLatency_loop];
    [reflexivity|].
  cbn [forallb] in H. apply andb_true_iff in H. destruct H as [Hr Hl].
  rewrite Hr. cbn [negb]. now apply IH.
Qed.

Lemma PmGetLatencyFromState_nonneg (slave : PmSlave) (state : Z) :
  forallb (fun t => is_u32 (latency t)) (trans (slvFsm slave)) = true ->
  0 <= PmGetLatencyFromState slave state <= MAX_LATENCY.
Proof.
  intros Hall. unfold PmGetLatencyFromState.
  destruct (first_index _ 0 _) as [t|] eqn:Hscan; [|unfold MAX_LATENCY; lia].
  apply first_index_Some in Hscan. destruct Hscan as (Hr & _ & _).
  rewrite forallb_forall in Hall.
  assert (Hin : In (trans_at (slvFsm slave) t) (trans (slvFsm slave))).
  { unfold trans_at. apply nth_In. unfold transCnt in Hr. lia. }
  specialize (Hall _ Hin). unfold is_u32 in Hall.
  apply andb_true_iff in Hall. lia.
Qed.

(** *** The state change: prepare, apply, settle *)

Lemma PmSlavePrepareState_effect (env : PmCollaborators) (next : Z) (w : PmWorld) :
  slave_of (snd (PmSlavePrepareState env next w)) = slave_of w
  /\ exists new, calls (snd (PmSlavePrepareState env next w)) = calls w ++ new
                 /\ prepare_outcome env (fst (PmSlavePrepareState env next w)) new.
Proof.
  unfold prepare_outcome. pm_unfold. cbn [fst snd slave_of calls].
  repeat pm_case; (split; [reflexivity|]); rewrite <- ?app_assoc; cbn [app];
    try (exists []; split; [now rewrite app_nil_r | now left]);
    (eexists; split; [reflexivity|]).
  all: try (right; left; split; reflexivity).
  all: try (right; right; left; split; reflexivity).
  all: right; right; right; split; [|split; reflexivity].
  all: match goal with
       | H : negb (_ =? _) = false |- _ =>
           apply negb_false_iff in H; now apply Z.eqb_eq in H
       end.
Qed.

Lemma PmSlaveChangeState_apply_effect (state : Z) (w : PmWorld) :
  slave_of (snd (PmSlaveChangeState_apply state w)) = slave_of w
  /\ (calls (snd (PmSlaveChangeState_apply state w)) = calls w
      \/ calls (snd (PmSlaveChangeState_apply state w))
         = calls w ++ [CallEnterState state
                         (fst (PmSlaveChangeState_apply state w))]).
Proof.
  pm_unfold. cbn [fst snd slave_of calls].
  repeat pm_case; (split; [reflexivity|]); auto.
Qed.

Lemma PmSlaveClearAfterState_slave (prev : Z) (w : PmWorld) :
  slave_of (snd (PmSlaveClearAfterState prev w)) = slave_of w.
Proof.
  pm_unfold. cbn [fst snd slave_of calls]. repeat pm_case; reflexivity.
Qed.

Lemma PmSlaveChangeState_unfold (env : PmCollaborators) (state : Z) (w : PmWorld) :
  PmSlaveChangeState env state w =
  let oldState := currState (node (slave_of w)) in
  let prep := PmSlavePrepareState env state w in
  let appl := if negb (fst prep =? XST_SUCCESS) then prep
              else PmSlaveChangeState_apply state (snd prep) in
  if negb (oldState =? state) && (fst appl =? XST_SUCCESS)
  then (fst appl,
        snd (PmSlaveClearAfterState oldState
               (snd (PmNodeUpdateCurrState state (snd appl)))))
  else appl.
Proof.
  unfold PmSlaveChangeState, bind at 1 2 3 4, get_slave at 1, ret.
  cbn [slave_of]. cbv zeta.
  destruct (PmSlavePrepareState env state w) as [st1 w1]. cbn [fst snd].
  destruct (negb (st1 =? XST_SUCCESS)); cbn [fst snd].
  - destruct (negb _ && _); cbn [fst snd].
    + unfold bind.
      destruct (PmNodeUpdateCurrState state w1) as [u w2]. cbn [fst snd].
      now destruct (PmSlaveClearAfterState _ w2).
    + reflexivity.
  - destruct (PmSlaveChangeState_apply state w1) as [st2 w2]. cbn [fst snd].
    destruct (negb _ && _); cbn [fst snd].
    + unfold bind.
      destruct (PmNodeUpdateCurrState state w2) as [u w3]. cbn [fst snd].
      now destruct (PmSlaveClearAfterState _ w3).
    + reflexivity.
Qed.

Lemma PmSlaveChangeState_prepare_failed (env : PmCollaborators) (state : Z)
  (w : PmWorld) :
  fst (PmSlavePrepareState env state w) <> XST_SUCCESS ->
  PmSlaveChangeState env state w = PmSlavePrepareState env state w.
Proof.
  intros Hfail. rewrite PmSlaveChangeState_unfold. cbv zeta.
  apply Z.eqb_neq in Hfail. rewrite Hfail. cbn [negb].
  rewrite Hfail, andb_false_r. reflexivity.
Qed.

Lemma PmSlaveChangeState_apply_failed (env : PmCollaborators) (state : Z)
  (w : PmWorld) :
  fst (PmSlavePrepareState env state w) = XST_SUCCESS ->
  fst (PmSlaveChangeState env state w) <> XST_SUCCESS ->
  PmSlaveChangeState env state w
  = PmSlaveChangeState_apply state (snd (PmSlavePrepareState env state w)).
Proof.
  intros Hprep. rewrite PmSlaveChangeState_unfold. cbv zeta.
  rewrite Hprep, Z.eqb_refl. cbn [negb].
  destruct (fst (PmSlaveChangeState_apply state _) =? XST_SUCCESS) eqn:Hap.
  - apply Z.eqb_eq in Hap.
    destruct (negb _ && true); cbn [fst]; intros H; now elim H.
  - rewrite andb_false_r. reflexivity.
Qed.

Lemma PmSlaveChangeState_slave (env : PmCollaborators) (state : Z) (w : PmWorld) :
  slave_of (snd (PmSlaveChangeState env state w))
  = if negb (currState (node (slave_of w)) =? state)
       && (fst (PmSlaveChangeState env state w) =? XST_SUCCESS)
    then set_currState state (slave_of w)
    else slave_of w.
Proof.
  rewrite PmSlaveChangeState_unfold. cbv zeta.
  destruct (PmSlavePrepareState_effect env state w) as [Hps _].
  set (prep := PmSlavePrepareState env state w) in *.
  assert (Happl : slave_of (snd (if negb (fst prep =? XST_SUCCESS) then prep
                                 else PmSlaveChangeState_apply state (snd prep)))
                  = slave_of w).
  { destruct (negb _); [exact Hps|].
    destruct (PmSlaveChangeState_apply_effect state (snd prep)) as [Ha _].
    now rewrite Ha. }
  set (appl := if negb (fst prep =? XST_SUCCESS) then prep
               else PmSlaveChangeState_apply state (snd prep)) in *.
  destruct (negb (currState (node (slave_of w)) =? state)); cbn [andb].
  - destruct (fst appl =? XST_SUCCESS) eqn:Hs; cbn [fst snd].
    + rewrite Hs. rewrite PmSlaveClearAfterState_slave.
      unfold PmNodeUpdateCurrState, update_slave. cbn [snd slave_of].
      now rewrite Happl.
    + rewrite Hs. exact Happl.
  - exact Happl.
Qed.

Lemma PmSlaveChangeState_apply_status (state : Z) (w : PmWorld) :
  let fsm := slvFsm (slave_of w) in
  let curr := currState (node (slave_of w)) in
  fst (PmSlaveChangeState_apply state w) <> XST_SUCCESS <->
  ((transCnt fsm <> 0
    /\ forall t, 0 <= t < transCnt fsm ->
         ~ (fromState (trans_at fsm t) = curr /\ toState (trans_at fsm t) = state))
   \/ (exists t action,
         0 <= t < transCnt fsm
         /\ fromState (trans_at fsm t) = curr /\ toState (trans_at fsm t) = state
         /\ enterState fsm = Some action
         /\ action curr state <> XST_SUCCESS)).
Proof.
  cbv zeta.
  assert (Hm : forall t,
             tran_matches (slvFsm (slave_of w)) (currState (node (slave_of w)))
                          state t = true <->
             (fromState (trans_at (slvFsm (slave_of w)) t)
              = currState (node (slave_of w))
              /\ toState (trans_at (slvFsm (slave_of w)) t) = state)).
  { intros t. unfold tran_matches.
    rewrite negb_true_iff, orb_false_iff, !negb_false_iff, !Z.eqb_eq.
    reflexivity. }
  pm_unfold. cbn [fst snd slave_of calls].
  destruct (first_index _ 0 _) as [t|] eqn:Hscan.
  - apply first_index_Some in Hscan. destruct Hscan as (Hr & Ht & _).
    apply Hm in Ht. destruct Ht as [Hf Ht].
    destruct (enterState (slvFsm (slave_of w))) as [action|] eqn:Hact;
      cbn [fst].
    + split.
      * intros Hne. right. exists t, action. now repeat split.
      * intros [[_ Hnone]|(t' & a' & _ & _ & _ & [= <-] & Hne)]; [|exact Hne].
        exfalso. apply (Hnone t Hr). now split.
    + split; [intros Hne; now elim Hne|].
      intros [[_ Hnone]|(t' & a' & _ & _ & _ & [=] & _)].
      exfalso. apply (Hnone t Hr). now split.
  - rewrite first_index_None in Hscan. cbn [fst].
    destruct (Z.eqb_spec (transCnt (slvFsm (slave_of w))) 0) as [Hz|Hnz].
    + split; [intros Hne; now elim Hne|].
      intros [[Hne _]|(t' & a' & Hr & _)]; [now elim Hne | lia].
    + split.
      * intros _. left. split; [exact Hnz|].
        intros t Hr Hboth. apply Hm in Hboth.
        rewrite Hscan in Hboth by exact Hr. discriminate.
      * intros _. apply XST_FAILURE_is_error.
Qed.

Lemma no_release_prepare (env : PmCollaborators) (status : Z) (l : list PmCall) :
  prepare_outcome env status l -> no_release l = true.
Proof.
  intros [[-> _]|[[-> _]|[[-> _]|(_ & -> & _)]]]; reflexivity.
Qed.

Lemma no_release_app (l1 l2 : list PmCall) :
  no_release (l1 ++ l2) = no_release l1 && no_release l2.
Proof. unfold no_release. apply forallb_app. Qed.

(** What an aborted state change has done: the slave is as before, the
    calls made are those of the prepare phase, followed by the transition
    action when the abort comes from it. *)
Lemma PmSlaveChangeState_aborted (env : PmCollaborators) (state : Z) (w : PmWorld) :
  fst (PmSlaveChangeState env state w) <> XST_SUCCESS ->
  slave_of (snd (PmSlaveChangeState env state w)) = slave_of w
  /\ exists pre act,
       calls (snd (PmSlaveChangeState env state w)) = calls w ++ pre ++ act
       /\ prepare_outcome env (fst (PmSlavePrepareState env state w)) pre
       /\ ((act = []
            /\ (fst (PmSlavePrepareState env state w) <> XST_SUCCESS
                \/ pre ++ act = pre))
           \/ (fst (PmSlavePrepareState env state w) = XST_SUCCESS
               /\ act = [CallEnterState state
                           (fst (PmSlaveChangeState env state w))])).
Proof.
  intros Hfail.
  destruct (PmSlavePrepareState_effect env state w) as (Hps & pre & Hpc & Hpo).
  destruct (Z.eq_dec (fst (PmSlavePrepareState env state w)) XST_SUCCESS)
    as [Hok|Hbad].
  - rewrite (PmSlaveChangeState_apply_failed env state w Hok Hfail) in *.
    destruct (PmSlaveChangeState_apply_effect state
                (snd (PmSlavePrepareState env state w))) as [Has Hac].
    split; [congruence|]. exists pre.
    destruct Hac as [Hac|Hac].
    + exists []. rewrite Hac, Hpc. split; [now rewrite app_nil_r|].
      split; [exact Hpo|]. left. split; [reflexivity|]. right.
      apply app_nil_r.
    + eexists. rewrite Hac, Hpc, <- app_assoc. split; [reflexivity|].
      split; [exact Hpo|]. right. split; [exact Hok | reflexivity].
  - rewrite (PmSlaveChangeState_prepare_failed env state w Hbad).
    split; [exact Hps|]. exists pre, []. rewrite Hpc.
    split; [now rewrite app_nil_r|]. split; [exact Hpo|].
    left. split; [reflexivity | now left].
Qed.

Lemma PmSlaveChangeState_aborted_no_release (env : PmCollaborators) (state : Z)
  (w : PmWorld) :
  fst (PmSlaveChangeState env state w) <> XST_SUCCESS ->
  exists new, calls (snd (PmSlaveChangeState env state w)) = calls w ++ new
              /\ no_release new = true.
Proof.
  intros Hfail.
  destruct (PmSlaveChangeState_aborted env state w Hfail)
    as (_ & pre & act & Hc & Hpo & Hact).
  exists (pre ++ act). split; [exact Hc|].
  rewrite no_release_app, (no_release_prepare _ _ _ Hpo).
  destruct Hact as [[-> _]|[_ ->]]; reflexivity.
Qed.

(** C4. When the prepare phase of [PmSlaveChangeState] fails, the function
    returns what the prepare phase returned: the slave, hence its current
    state and its requirement list, is unchanged. When the prepare phase
    succeeds and the function still fails, the failure is that of the apply
    phase (no entry of a non-empty transition table matches the pair of
    current and target state, or the transition action of a matching entry
    reports an error): the current state and the requirement list are
    unchanged and the calls made since entry contain no clock or
    power-parent release. *)
Theorem PmSlaveChangeState_failure_atomic (env : PmCollaborators) (state : Z)
  (w : PmWorld) :
  let prep := PmSlavePrepareState env state w in
  let r := PmSlaveChangeState env state w in
  (fst prep <> XST_SUCCESS ->
   r = prep
   /\ currState (node (slave_of (snd r))) = currState (node (slave_of w))
   /\ reqs (slave_of (snd r)) = reqs (slave_of w)
   /\ slave_of (snd r) = slave_of w)
  /\ (fst prep = XST_SUCCESS -> fst r <> XST_SUCCESS ->
      r = PmSlaveChangeState_apply state (snd prep)
      /\ currState (node (slave_of (snd r))) = currState (node (slave_of w))
      /\ reqs (slave_of (snd r)) = reqs (slave_of w)
      /\ exists new, calls (snd r) = calls w ++ new /\ no_release new = true)
  /\ (fst (PmSlaveChangeState_apply state (snd prep)) <> XST_SUCCESS <->
      ((transCnt (slvFsm (slave_of w)) <> 0
        /\ forall t, 0 <= t < transCnt (slvFsm (slave_of w)) ->
             ~ (fromState (trans_at (slvFsm (slave_of w)) t)
                = currState (node (slave_of w))
                /\ toState (trans_at (slvFsm (slave_of w)) t) = state))
       \/ (exists t action,
             0 <= t < transCnt (slvFsm (slave_of w))
             /\ fromState (trans_at (slvFsm (slave_of w)) t)
                = currState (node (slave_of w))
             /\ toState (trans_at (slvFsm (slave_of w)) t) = state
             /\ enterState (slvFsm (slave_of w)) = Some action
             /\ action (currState (node (slave_of w))) state <> XST_SUCCESS))).
Proof.
  cbv zeta. split; [|split].
  - intros Hbad.
    assert (Hfail : fst (PmSlaveChangeState env state w) <> XST_SUCCESS).
    { now rewrite (PmSlaveChangeState_prepare_failed env state w Hbad). }
    destruct (PmSlaveChangeState_aborted env state w Hfail) as (Hs & _).
    split; [now apply PmSlaveChangeState_prepare_failed|].
    rewrite Hs. now repeat split.
  - intros Hok Hfail.
    destruct (PmSlaveChangeState_aborted env state w Hfail) as (Hs & _).
    split; [now apply PmSlaveChangeState_apply_failed|].
    rewrite Hs. split; [reflexivity|]. split; [reflexivity|].
    now apply PmSlaveChangeState_aborted_no_release.
  - destruct (PmSlavePrepareState_effect env state w) as (Hps & _).
    pose proof (PmSlaveChangeState_apply_status state
                  (snd (PmSlavePrepareState env state w))) as H.
    cbv zeta in H. rewrite Hps in H. exact H.
Qed.

Lemma acquisitions_released_no_release (l : list PmCall) :
  no_release l = true ->
  acquisitions_released l = forallb (fun c => negb (is_acquired c)) l.
Proof.
  unfold no_release.
  induction l as [|c l IH]; cbn [forallb acquisitions_released];
    [reflexivity|].
  intros H. apply andb_true_iff in H. destruct H as [Hc Hl].
  rewrite (IH Hl). f_equal.
  assert (Hp : existsb is_power_release l = false).
  { clear -Hl. induction l as [|d l IH]; [reflexivity|].
    cbn [forallb existsb] in *. apply andb_true_iff in Hl.
    destruct Hl as [Hd Hl]. rewrite (IH Hl). now destruct d. }
  assert (Hk : existsb is_clock_release l = false).
  { clear -Hl. induction l as [|d l IH]; [reflexivity|].
    cbn [forallb existsb] in *. apply andb_true_iff in Hl.
    destruct Hl as [Hd Hl]. rewrite (IH Hl). now destruct d. }
  destruct c; cbn [is_acquired negb]; try reflexivity;
    rewrite ?Hp, ?Hk; now destruct (_ =? _).
Qed.

(** C5, as the code has it. An aborted [PmSlaveChangeState] releases
    nothing. The calls it has made are the acquisition calls of the prepare
    phase (the power-parent request, then the clock request, which is only
    reached when the power-parent request was not needed or succeeded),
    followed by the transition action when the abort comes from it; none is
    a release and the slave is left as it was. So the acquisitions of the
    aborted call are all undone on return exactly when none of them
    succeeded: an acquisition that did succeed stays in place. *)
Theorem PmSlaveChangeState_aborted_keeps_acquisitions
  (env : PmCollaborators) (state : Z) (w : PmWorld)
  (Hfail : fst (PmSlaveChangeState env state w) <> XST_SUCCESS) :
  slave_of (snd (PmSlaveChangeState env state w)) = slave_of w
  /\ exists pre act,
       calls (snd (PmSlaveChangeState env state w)) = calls w ++ pre ++ act
       /\ prepare_outcome env (fst (PmSlavePrepareState env state w)) pre
       /\ (act = []
           \/ (fst (PmSlavePrepareState env state w) = XST_SUCCESS
               /\ act = [CallEnterState state
                           (fst (PmSlaveChangeState env state w))]))
       /\ no_release (pre ++ act) = true
       /\ (acquisitions_released (pre ++ act) = true <->
           forallb (fun c => negb (is_acquired c)) (pre ++ act) = true).
Proof.
  destruct (PmSlaveChangeState_aborted env state w Hfail)
    as (Hs & pre & act & Hc & Hpo & Hact).
  split; [exact Hs|]. exists pre, act.
  assert (Hnr : no_release (pre ++ act) = true).
  { rewrite no_release_app, (no_release_prepare _ _ _ Hpo).
    destruct Hact as [[-> _]|[_ ->]]; reflexivity. }
  split; [exact Hc|]. split; [exact Hpo|]. split.
  - destruct Hact as [[-> _]|[Hok ->]]; [now left | right; now split].
  - split; [exact Hnr|].
    now rewrite (acquisitions_released_no_release _ Hnr).
Qed.

(** *** The latency margin *)

Lemma PmUpdateSlave_latencyMarg (env : PmCollaborators) (w : PmWorld)
  (state minLat wkupLat : Z) :
  PmUpdateSlave_resolve (slave_of w) = inr (state, minLat, wkupLat) ->
  latencyMarg (node (slave_of (snd (PmUpdateSlave env w))))
  = wrap32 (minLat - wkupLat).
Proof.
  intros Hres. unfold PmUpdateSlave, bind at 1, get_slave at 1.
  rewrite Hres. unfold bind at 1, update_slave at 1.
  destruct (negb (state =? currState (node (slave_of w)))).
  - rewrite PmSlaveChangeState_slave. cbn [slave_of].
    now destruct (negb _ && _).
  - destruct (negb (HAS_CAPABILITIES (slave_of w) state PM_CAP_POWER));
      reflexivity.
Qed.

(** C6. Whenever [PmUpdateSlave] reaches the assignment of the latency
    margin, with every latency of the slave a [u32], the wake-up latency of
    the chosen state is between zero and the aggregated minimum latency,
    which is at most [MAX_LATENCY]; the margin stored in the node is
    [minLat - wkupLat] as an integer, the 32-bit subtraction does not wrap.
    When no requirement has set a latency bound the minimum is
    [MAX_LATENCY] and the same holds. *)
Theorem PmUpdateSlave_latencyMarg_exact (env : PmCollaborators) (w : PmWorld)
  (state minLat wkupLat : Z)
  (Hu32 : latencies_u32 (slave_of w) = true)
  (Hres : PmUpdateSlave_resolve (slave_of w) = inr (state, minLat, wkupLat)) :
  minLat = PmGetMinRequestedLatency (slave_of w)
  /\ wkupLat = PmGetLatencyFromState (slave_of w) state
  /\ 0 <= wkupLat <= minLat
  /\ minLat <= MAX_LATENCY
  /\ latencyMarg (node (slave_of (snd (PmUpdateSlave env w)))) = minLat - wkupLat
  /\ (forallb (fun r => Z.land PM_MASTER_SET_LATENCY_REQ (info r) =? 0)
              (reqs (slave_of w)) = true ->
      minLat = MAX_LATENCY).
Proof.
  destruct (PmUpdateSlave_resolve_inr _ _ _ _ Hres) as (Hmin & Hwk & Hle).
  unfold latencies_u32 in Hu32. apply andb_true_iff in Hu32.
  destruct Hu32 as [Htr _].
  pose proof (PmGetLatencyFromState_nonneg (slave_of w) state Htr) as Hnn.
  assert (Hmax : minLat <= MAX_LATENCY).
  { rewrite Hmin. apply PmGetMinRequestedLatency_loop_le. }
  split; [exact Hmin|]. split; [exact Hwk|].
  split; [rewrite Hwk in *; lia|]. split; [exact Hmax|]. split.
  - rewrite (PmUpdateSlave_latencyMarg env w _ _ _ Hres).
    unfold wrap32. apply Z.mod_small.
    unfold MAX_LATENCY in *. rewrite Hwk in *. lia.
  - intros Hunset. rewrite Hmin.
    now apply PmGetMinRequestedLatency_loop_unset.
Qed.

(** *** Force-down *)

Lemma req_using_PmRequirementClear (r : PmRequirement) :
  req_using (PmRequirementClear r) = false.
Proof.
  unfold req_using, PmRequirementClear. cbn [info].
  apply negb_false_iff, Z.eqb_eq, Z.bits_inj'. intros n Hn.
  rewrite Z.land_spec, Z.ldiff_spec, Z.bits_0.
  now destruct (Z.testbit PM_MASTER_USING_SLAVE_MASK n), (Z.testbit (info r) n).
Qed.

Lemma PmSlaveForceDown_loop_map (l : list PmRequirement) :
  PmSlaveForceDown_loop l
  = map (fun r => if req_using r then PmRequirementClear r else r) l.
Proof.
  induction l as [|r l IH]; cbn [PmSlaveForceDown_loop map]; [reflexivity|].
  now rewrite IH.
Qed.

Lemma PmSlaveForceDown_loop_inactive (l : list PmRequirement) :
  forallb (fun r => negb (req_using r)) (PmSlaveForceDown_loop l) = true.
Proof.
  induction l as [|r l IH]; cbn [PmSlaveForceDown_loop forallb]; [reflexivity|].
  rewrite IH, andb_true_r.
  destruct (req_using r) eqn:Hr.
  - now rewrite req_using_PmRequirementClear.
  - now rewrite Hr.
Qed.

Lemma PmSlaveGetUsersMask_loop_inactive (l : list PmRequirement) :
  forall usage,
    forallb (fun r => negb (req_using r)) l = true ->
    PmSlaveGetUsersMask_loop l usage = usage.
Proof.
  induction l as [|r l IH]; intros usage H; cbn [PmSlaveGetUsersMask_loop];
    [reflexivity|].
  cbn [forallb] in H. apply andb_true_iff in H. destruct H as [Hr Hl].
  apply negb_true_iff in Hr. rewrite Hr. now apply IH.
Qed.

Lemma PmSlaveChangeState_reqs (env : PmCollaborators) (state : Z) (w : PmWorld) :
  reqs (slave_of (snd (PmSlaveChangeState env state w))) = reqs (slave_of w).
Proof.
  rewrite PmSlaveChangeState_slave. now destruct (negb _ && _).
Qed.

(** C8. [PmSlaveForceDown] clears every requirement whose using flag is set
    and leaves the others as they are; then it calls
    [PmSlaveChangeState] for state 0 if and only if the current state is
    not 0 and returns its status, and returns success without any call
    otherwise. Whatever the status, the requirement list on return is the
    cleared one: no requirement is in use and [PmSlaveGetUsersMask] is
    zero. *)
Theorem PmSlaveForceDown_deactivates_all (env : PmCollaborators) (w : PmWorld) :
  let cleared :=
    mkPmWorld (set_reqs (PmSlaveForceDown_loop (reqs (slave_of w))) (slave_of w))
              (calls w) in
  let r := PmSlaveForceDown env w in
  reqs (slave_of (snd r))
  = map (fun q => if req_using q then PmRequirementClear q else q)
        (reqs (slave_of w))
  /\ forallb (fun q => negb (req_using q)) (reqs (slave_of (snd r))) = true
  /\ PmSlaveGetUsersMask (slave_of (snd r)) = 0
  /\ (currState (node (slave_of w)) <> 0 ->
      r = PmSlaveChangeState env 0 cleared)
  /\ (currState (node (slave_of w)) = 0 -> r = (XST_SUCCESS, cleared)).
Proof.
  cbv zeta.
  assert (Hreqs : reqs (slave_of (snd (PmSlaveForceDown env w)))
                  = PmSlaveForceDown_loop (reqs (slave_of w))).
  { unfold PmSlaveForceDown, bind, update_slave, get_slave. cbn [slave_of node].
    destruct (negb _); [|reflexivity].
    now rewrite PmSlaveChangeState_reqs. }
  split; [rewrite Hreqs; apply PmSlaveForceDown_loop_map|].
  split; [rewrite Hreqs; apply PmSlaveForceDown_loop_inactive|].
  split.
  - unfold PmSlaveGetUsersMask. rewrite Hreqs.
    apply PmSlaveGetUsersMask_loop_inactive, PmSlaveForceDown_loop_inactive.
  - unfold PmSlaveForceDown, bind, update_slave, get_slave.
    cbn [slave_of node set_reqs currState]. split; intros Hc.
    + destruct (Z.eqb_spec 0 (currState (node (slave_of w)))); [lia|].
      reflexivity.
    + rewrite Hc. reflexivity.
Qed.

(** *** Wake-up latency *)

(** C10. For a slave with a power parent whose node class has no
    [getWakeUpLatency] method, [PmSlaveGetWakeUpLatency] returns
    [XST_NO_FEATURE], an error status, and the output location holds the
    slave's own latency from its current state, whatever it held before:
    the store is done before the method pointer is checked. *)
Theorem PmSlaveGetWakeUpLatency_partial_on_no_feature
  (slave : PmSlave) (p : PmPower) (lat : Z)
  (Hparent : parent (node slave) = Some p)
  (Hmethod : getWakeUpLatency p = None) :
  PmSlaveGetWakeUpLatency slave lat
  = Some (XST_NO_FEATURE,
          PmGetLatencyFromState slave (currState (node slave)))
  /\ XST_NO_FEATURE <> XST_SUCCESS.
Proof.
  unfold PmSlaveGetWakeUpLatency. rewrite Hparent, Hmethod.
  split; [reflexivity | apply XST_NO_FEATURE_is_error].
Qed.

(** *** Configuration *)

Lemma scan_from_filter (p : Z -> bool) (c : Z) (t : list Z) (n : nat) :
  forall a,
    filter p (map Z.of_nat (seq a n)) = c :: t ->
    scan_from p n (Z.of_nat a) = Some c.
Proof.
  induction n as [|n IH]; intros a; cbn [seq map filter scan_from];
    [discriminate|].
  destruct (p (Z.of_nat a)).
  - intros [= <- _]. reflexivity.
  - intros H. replace (Z.of_nat a + 1) with (Z.of_nat (S a)) by lia.
    now apply IH.
Qed.

Lemma filter_drop_head (p : Z -> bool) (c : Z) (t : list Z) (n : nat) :
  forall a,
    filter p (map Z.of_nat (seq a n)) = c :: t ->
    filter (fun j => p j && negb (j =? c)) (map Z.of_nat (seq a n)) = t.
Proof.
  induction n as [|n IH]; intros a; cbn [seq map filter]; [discriminate|].
  destruct (p (Z.of_nat a)) eqn:Hpa.
  - intros [= <- <-]. rewrite Z.eqb_refl. cbn [negb andb].
    apply filter_ext_in. intros j Hj.
    apply in_map_iff in Hj. destruct Hj as (k & <- & Hk).
    apply in_seq in Hk.
    destruct (Z.eqb_spec (Z.of_nat k) (Z.of_nat a)); [lia|].
    now rewrite andb_true_r.
  - cbn [andb]. apply IH.
Qed.

Lemma testbit_ldiff_bit (x c j : Z) :
  0 <= c -> 0 <= j ->
  Z.testbit (Z.ldiff x (Z.shiftl 1 c)) j = Z.testbit x j && negb (j =? c).
Proof.
  intros Hc Hj. rewrite Z.ldiff_spec, Z.shiftl_1_l, Z.pow2_bits_eqb by exact Hc.
  now rewrite (Z.eqb_sym c j).
Qed.

Lemma filter_head_range (p : Z -> bool) (c : Z) (t : list Z) (a n : nat) :
  filter p (map Z.of_nat (seq a n)) = c :: t ->
  Z.of_nat a <= c < Z.of_nat (a + n).
Proof.
  intros H.
  assert (Hin : In c (filter p (map Z.of_nat (seq a n))))
    by (rewrite H; now left).
  apply filter_In in Hin. destruct Hin as [Hin _].
  apply in_map_iff in Hin. destruct Hin as (k & <- & Hk).
  apply in_seq in Hk. lia.
Qed.

Lemma ctz32_head (x c : Z) (t : list Z) :
  filter (Z.testbit x) bit_positions = c :: t -> ctz32 x = c.
Proof.
  intros H. unfold ctz32, first_index.
  change (Z.to_nat (32 - 0)) with 32%nat.
  change 0 with (Z.of_nat 0) at 1.
  now rewrite (scan_from_filter _ _ _ _ _ H).
Qed.

Lemma wrap32_bit (c : Z) : 0 <= c < 32 -> wrap32 (Z.shiftl 1 c) = Z.shiftl 1 c.
Proof.
  intros Hc. unfold wrap32. rewrite Z.shiftl_1_l. apply Z.mod_small.
  split; [apply Z.pow_nonneg; lia | apply Z.pow_lt_mono_r; lia].
Qed.

Lemma bits_clear_lowest (x c : Z) (t : list Z) :
  filter (Z.testbit x) bit_positions = c :: t ->
  filter (Z.testbit (Z.ldiff x (Z.shiftl 1 c))) bit_positions = t.
Proof.
  intros H. pose proof (filter_head_range _ _ _ _ _ H) as Hc.
  rewrite <- (filter_drop_head _ _ _ _ _ H).
  apply filter_ext_in. intros j Hj.
  apply in_map_iff in Hj. destruct Hj as (k & <- & Hk).
  apply testbit_ldiff_bit; lia.
Qed.

Section ConfigProofs.

Variable PmGetMasterByIpiMask : Z -> option PmMaster.
Variable PmRequirementAdd : PmMaster -> PmSlave -> Z * PmSlave.

Lemma PmSlaveSetConfig_loop_masks (bs : list Z) :
  forall masterIpiMasks slave,
    filter (Z.testbit masterIpiMasks) bit_positions = bs ->
    PmSlaveSetConfig_loop PmGetMasterByIpiMask PmRequirementAdd
                          (length bs) masterIpiMasks slave
    = config_over PmGetMasterByIpiMask PmRequirementAdd
                  (map (Z.shiftl 1) bs) slave.
Proof.
  induction bs as [|c t IH]; intros x slave Hbits;
    cbn [length PmSlaveSetConfig_loop map config_over]; [reflexivity|].
  pose proof (filter_head_range _ _ _ _ _ Hbits) as Hc.
  rewrite (ctz32_head _ _ _ Hbits), wrap32_bit by lia.
  destruct (PmGetMasterByIpiMask (Z.shiftl 1 c)) as [m|]; [|reflexivity].
  destruct (PmRequirementAdd m slave) as [status slave'].
  destruct (negb (status =? XST_SUCCESS)); [reflexivity|].
  apply IH. now apply bits_clear_lowest.
Qed.

Lemma PmSlaveSetConfig_masks (slave : PmSlave) (policy perms : Z) :
  PmSlaveSetConfig PmGetMasterByIpiMask PmRequirementAdd slave policy perms
  = config_over PmGetMasterByIpiMask PmRequirementAdd
                (masks_of perms) (with_policy policy slave).
Proof.
  unfold PmSlaveSetConfig, popcount32, masks_of, with_policy.
  rewrite Nat2Z.id. now apply PmSlaveSetConfig_loop_masks.
Qed.

Lemma config_over_unresolved (m : Z) (post : list Z) :
  PmGetMasterByIpiMask m = None ->
  forall pre masters slave,
    Forall2 (fun b mst => PmGetMasterByIpiMask b = Some mst) pre masters ->
    Forall (fun mst => forall s, fst (PmRequirementAdd mst s) = XST_SUCCESS)
           masters ->
    config_over PmGetMasterByIpiMask PmRequirementAdd (pre ++ m :: post) slave
    = (XST_FAILURE, bind_all PmRequirementAdd masters slave).
Proof.
  intros Hm pre masters slave Hknown. revert slave.
  induction Hknown as [|b mst pre masters Hb Hrest IH]; intros slave Hadd;
    cbn [app config_over bind_all].
  - now rewrite Hm.
  - rewrite Hb. inversion Hadd as [|? ? Hok Hadd']; subst.
    specialize (Hok slave).
    destruct (PmRequirementAdd mst slave) as [status slave']. cbn [fst snd] in *.
    rewrite Hok, Z.eqb_refl. cbn [negb]. now apply IH.
Qed.

End ConfigProofs.

Lemma PmRequirementAdd_model_binds (m : PmMaster) (slave : PmSlave) :
  fst (PmRequirementAdd_model m slave) = XST_SUCCESS
  /\ bound_to m (snd (PmRequirementAdd_model m slave)) = true
  /\ forall m', bound_to m' slave = true ->
                bound_to m' (snd (PmRequirementAdd_model m slave)) = true.
Proof.
  unfold PmRequirementAdd_model, bound_to.
  destruct (existsb _ (reqs slave)) eqn:He; cbn [fst snd set_reqs reqs existsb master].
  - split; [reflexivity|]. split; [exact He|]. intros m' H; exact H.
  - rewrite Z.eqb_refl. split; [reflexivity|]. split; [reflexivity|].
    intros m' H. rewrite H. apply orb_true_r.
Qed.

Lemma bind_all_model_keeps (ms : list PmMaster) :
  forall slave m, bound_to m slave = true ->
                  bound_to m (bind_all PmRequirementAdd_model ms slave) = true.
Proof.
  induction ms as [|m0 ms IH]; intros slave m Hb; cbn [bind_all]; [exact Hb|].
  apply IH. now apply PmRequirementAdd_model_binds.
Qed.

Lemma bind_all_model_binds (ms : list PmMaster) :
  forall slave m, In m ms ->
                  bound_to m (bind_all PmRequirementAdd_model ms slave) = true.
Proof.
  induction ms as [|m0 ms IH]; intros slave m Hin; cbn [bind_all];
    [contradiction|].
  destruct Hin as [->|Hin].
  - apply bind_all_model_keeps.
    exact (proj1 (proj2 (PmRequirementAdd_model_binds m slave))).
  - now apply IH.
Qed.

(** C9, as the code has it. When [PmSlaveSetConfig] meets, among the masks
    of [perms] taken from the lowest bit up, a first mask [m] that does not
    resolve to a master, while the masks before it resolve to [masters] and
    their requirements are added successfully, the call returns
    [XST_FAILURE] at once: the masks after [m] are not looked at. The
    slave it leaves is the one obtained by setting the shareable flag as
    the policy asks and adding the requirements of [masters] in turn:
    nothing is rolled back. With the requirement module as the spec
    describes it, every master of [masters] is still bound to the slave
    after the failed call. *)
Theorem PmSlaveSetConfig_unresolved_keeps_earlier_bindings
  (PmGetMasterByIpiMask : Z -> option PmMaster)
  (PmRequirementAdd : PmMaster -> PmSlave -> Z * PmSlave)
  (slave : PmSlave) (policy perms m : Z) (pre post : list Z)
  (masters : list PmMaster)
  (Hsplit : masks_of perms = pre ++ m :: post)
  (Hknown : Forall2 (fun b mst => PmGetMasterByIpiMask b = Some mst) pre masters)
  (Hadd : Forall (fun mst => forall s, fst (PmRequirementAdd mst s) = XST_SUCCESS)
                 masters)
  (Hunknown : PmGetMasterByIpiMask m = None) :
  PmSlaveSetConfig PmGetMasterByIpiMask PmRequirementAdd slave policy perms
  = (XST_FAILURE, bind_all PmRequirementAdd masters (with_policy policy slave))
  /\ XST_FAILURE <> XST_SUCCESS
  /\ (forall mst, In mst masters ->
        bound_to mst (bind_all PmRequirementAdd_model masters
                               (with_policy policy slave)) = true).
Proof.
  split; [|split].
  - rewrite PmSlaveSetConfig_masks, Hsplit.
    now apply config_over_unresolved.
  - apply XST_FAILURE_is_error.
  - intros mst Hin. now apply bind_all_model_binds.
Qed.

(** ** Further properties of the queries *)

(** X1. [PmCheckCapabilities] succeeds exactly when some state of the table
    offers a superset of the capabilities, returns [XST_NO_FEATURE] exactly
    when none does, and agrees with the status of [PmGetStateWithCaps]. *)
Theorem PmCheckCapabilities_iff_some_state (slave : PmSlave) (caps : Z) :
  (PmCheckCapabilities slave caps = XST_SUCCESS <->
   exists i, 0 <= i < statesCnt (slvFsm slave)
             /\ superset_state (slvFsm slave) caps i)
  /\ (PmCheckCapabilities slave caps = XST_NO_FEATURE <->
      forall j, 0 <= j < statesCnt (slvFsm slave) ->
                ~ superset_state (slvFsm slave) caps j)
  /\ (PmCheckCapabilities slave caps = XST_SUCCESS <->
      fst (PmGetStateWithCaps slave caps None) = XST_SUCCESS).
Proof.
  unfold PmCheckCapabilities, PmGetStateWithCaps.
  destruct (first_index _ 0 _) as [k|] eqn:Hscan; cbn [fst].
  - apply first_index_Some in Hscan. destruct Hscan as (Hr & Hk & _).
    apply state_has_caps_iff in Hk. split; [|split].
    + split; [intros _; exists k; now split | reflexivity].
    + split.
      * intros He. symmetry in He. now apply XST_NO_FEATURE_is_error in He.
      * intros Hnone. exfalso. now apply (Hnone k).
    + tauto.
  - rewrite first_index_None in Hscan. split; [|split].
    + split.
      * intros He. now apply XST_NO_FEATURE_is_error in He.
      * intros (i & Hr & Hi). apply state_has_caps_iff in Hi.
        rewrite Hscan in Hi by exact Hr. discriminate.
    + split; [|reflexivity]. intros _ j Hj.
      apply state_has_caps_false. now apply Hscan.
    + split; intros He.
      * now apply XST_NO_FEATURE_is_error in He.
      * now apply XST_PM_CONFLICT_is_error in He.
Qed.

Lemma superset_state_subset (fsm : PmSlaveFsm) (caps caps' i : Z) :
  Z.land caps' caps = caps' ->
  superset_state fsm caps i -> superset_state fsm caps' i.
Proof.
  unfold superset_state. intros Hsub Hsup.
  rewrite <- Hsub at 1. rewrite <- Z.land_assoc, Hsup. exact Hsub.
Qed.

(** X2. Asking for fewer capabilities never selects a higher state: when
    [caps'] is a subset of [caps] and [PmGetStateWithCaps] finds state [i]
    for [caps], it finds a state [i' <= i] for [caps']. *)
Theorem PmGetStateWithCaps_monotone (slave : PmSlave) (caps caps' cell i : Z)
  (Hsub : Z.land caps' caps = caps')
  (Hfound : PmGetStateWithCaps slave caps (Some cell) = (XST_SUCCESS, Some i)) :
  exists i', PmGetStateWithCaps slave caps' (Some cell) = (XST_SUCCESS, Some i')
             /\ 0 <= i' <= i.
Proof.
  apply PmGetStateWithCaps_found in Hfound. destruct Hfound as (Hr & Hi & _).
  pose proof (superset_state_subset _ _ _ _ Hsub Hi) as Hi'.
  unfold PmGetStateWithCaps.
  destruct (first_index _ 0 _) as [k|] eqn:Hscan.
  - exists k. split; [reflexivity|].
    apply first_index_Some in Hscan. destruct Hscan as (Hrk & _ & Hlow).
    split; [lia|]. destruct (Z_le_gt_dec k i) as [Hle|Hgt]; [exact Hle|].
    apply state_has_caps_iff in Hi'. rewrite Hlow in Hi' by lia. discriminate.
  - rewrite first_index_None in Hscan. apply state_has_caps_iff in Hi'.
    rewrite Hscan in Hi' by exact Hr. discriminate.
Qed.

(** X3. [PmSlaveHasWakeUpCap] succeeds exactly when the wake pointer is set
    and some state offers the wake-up capability; its only other result is
    [XST_NO_FEATURE]. *)
Theorem PmSlaveHasWakeUpCap_iff (PM_CAP_WAKEUP : Z) (wake : bool) (slv : PmSlave) :
  (PmSlaveHasWakeUpCap PM_CAP_WAKEUP wake slv = XST_SUCCESS <->
   (wake = true
    /\ exists i, 0 <= i < statesCnt (slvFsm slv)
                 /\ superset_state (slvFsm slv) PM_CAP_WAKEUP i))
  /\ (PmSlaveHasWakeUpCap PM_CAP_WAKEUP wake slv = XST_SUCCESS
      \/ PmSlaveHasWakeUpCap PM_CAP_WAKEUP wake slv = XST_NO_FEATURE).
Proof.
  unfold PmSlaveHasWakeUpCap, PmCheckCapabilities.
  destruct wake; cbn [negb].
  - destruct (first_index _ 0 _) as [k|] eqn:Hscan.
    + apply first_index_Some in Hscan. destruct Hscan as (Hr & Hk & _).
      apply state_has_caps_iff in Hk. split; [|now left].
      split; [intros _; split; [reflexivity | exists k; now split]
             | reflexivity].
    + rewrite first_index_None in Hscan. split; [|now right]. split.
      * intros He. now apply XST_NO_FEATURE_is_error in He.
      * intros (_ & i & Hr & Hi). apply state_has_caps_iff in Hi.
        rewrite Hscan in Hi by exact Hr. discriminate.
  - split; [|now right]. split.
    + intros He. now apply XST_NO_FEATURE_is_error in He.
    + intros (Hw & _). discriminate.
Qed.

Lemma PmGetMinRequestedLatency_loop_min (l : list PmRequirement) :
  forall acc,
    (forall r, In r l -> req_sets_latency r = true ->
               PmGetMinRequestedLatency_loop l acc <= latencyReq r)
    /\ (PmGetMinRequestedLatency_loop l acc = acc
        \/ exists r, In r l /\ req_sets_latency r = true
                     /\ latencyReq r = PmGetMinRequestedLatency_loop l acc).
Proof.
  unfold req_sets_latency.
  induction l as [|r l IH]; intros acc; cbn [PmGetMinRequestedLatency_loop].
  - split; [intros r [] | now left].
  - destruct (negb (Z.land PM_MASTER_SET_LATENCY_REQ (info r) =? 0)) eqn:Hset.
    + destruct (Z.gtb_spec acc (latencyReq r)) as [Hgt|Hle].
      * destruct (IH (latencyReq r)) as [Hall Hex]. split.
        -- intros r' [<-|Hin] Hr'.
           ++ apply PmGetMinRequestedLatency_loop_le.
           ++ now apply Hall.
        -- right. destruct Hex as [Heq|(r' & Hin & Hr' & Heq)].
           ++ exists r. split; [now left|]. split; [exact Hset | now rewrite Heq].
           ++ exists r'. split; [now right|]. now split.
      * destruct (IH acc) as [Hall Hex]. split.
        -- intros r' [<-|Hin] Hr'.
           ++ pose proof (PmGetMinRequestedLatency_loop_le l acc). lia.
           ++ now apply Hall.
        -- destruct Hex as [Heq|(r' & Hin & Hr' & Heq)]; [now left|].
           right. exists r'. split; [now right|]. now split.
    + destruct (IH acc) as [Hall Hex]. split.
      * intros r' [<-|Hin] Hr'; [congruence | now apply Hall].
      * destruct Hex as [Heq|(r' & Hin & Hr' & Heq)]; [now left|].
        right. exists r'. split; [now right|]. now split.
Qed.

(** X4. [PmGetMinRequestedLatency] is the minimum of [MAX_LATENCY] and the
    latency bounds of the requirements that set one: it is at most
    [MAX_LATENCY] and at most each such bound, and it is [MAX_LATENCY] or
    the bound of one of those requirements. Requirements without the flag
    are ignored whatever their [latencyReq]. *)
Theorem PmGetMinRequestedLatency_is_minimum (slave : PmSlave) :
  PmGetMinRequestedLatency slave <= MAX_LATENCY
  /\ (forall r, In r (reqs slave) -> req_sets_latency r = true ->
                PmGetMinRequestedLatency slave <= latencyReq r)
  /\ (PmGetMinRequestedLatency slave = MAX_LATENCY
      \/ exists r, In r (reqs slave) /\ req_sets_latency r = true
                   /\ latencyReq r = PmGetMinRequestedLatency slave)
  /\ PmGetMinRequestedLatency
       (set_reqs (filter req_sets_latency (reqs slave)) slave)
     = PmGetMinRequestedLatency slave.
Proof.
  unfold PmGetMinRequestedLatency.
  destruct (PmGetMinRequestedLatency_loop_min (reqs slave) MAX_LATENCY)
    as [Hall Hex].
  split; [apply PmGetMinRequestedLatency_loop_le|].
  split; [exact Hall|]. split; [exact Hex|].
  clear Hall Hex. cbn [set_reqs reqs]. generalize MAX_LATENCY.
  induction (reqs slave) as [|r l IH]; intros acc; [reflexivity|].
  cbn [filter]. unfold req_sets_latency at 1.
  destruct (negb (Z.land PM_MASTER_SET_LATENCY_REQ (info r) =? 0)) eqn:Hset;
    cbn [PmGetMinRequestedLatency_loop]; rewrite Hset; apply IH.
Qed.

Lemma PmSlaveGetUsersMask_loop_acc (l : list PmRequirement) :
  forall acc, PmSlaveGetUsersMask_loop l acc = Z.lor acc (or_of_users l).
Proof.
  unfold or_of_users.
  induction l as [|r l IH]; intros acc; cbn [PmSlaveGetUsersMask_loop filter].
  - cbn. now rewrite Z.lor_0_r.
  - rewrite IH. destruct (req_using r); cbn [map fold_right].
    + now rewrite Z.lor_assoc.
    + reflexivity.
Qed.

Lemma or_of_users_testbit (l : list PmRequirement) (n : Z) :
  Z.testbit (or_of_users l) n
  = existsb (fun r => req_using r && Z.testbit (ipiMask (master r)) n) l.
Proof.
  unfold or_of_users.
  induction l as [|r l IH]; cbn [filter existsb].
  - cbn. apply Z.bits_0.
  - destruct (req_using r); cbn [map fold_right andb orb].
    + rewrite Z.lor_spec, IH. reflexivity.
    + exact IH.
Qed.

Lemma PmSlaveGetUsersMask_or (slave : PmSlave) :
  PmSlaveGetUsersMask slave = or_of_users (reqs slave).
Proof.
  unfold PmSlaveGetUsersMask. rewrite PmSlaveGetUsersMask_loop_acc.
  apply Z.lor_0_l.
Qed.

(** X5. [PmSlaveGetUsersMask] is the bitwise OR of the [ipiMask] of the
    masters whose requirement has the using flag set: a bit is in the
    result if and only if a master in use has it; requirements with the
    flag cleared can be dropped from the list without changing the result,
    and with no requirement in use the result is zero. *)
Theorem PmSlaveGetUsersMask_or_of_users (slave : PmSlave) :
  PmSlaveGetUsersMask slave = or_of_users (reqs slave)
  /\ (forall n, Z.testbit (PmSlaveGetUsersMask slave) n
                = existsb (fun r => req_using r
                                    && Z.testbit (ipiMask (master r)) n)
                          (reqs slave))
  /\ PmSlaveGetUsersMask (set_reqs (filter req_using (reqs slave)) slave)
     = PmSlaveGetUsersMask slave
  /\ (forallb (fun r => negb (req_using r)) (reqs slave) = true ->
      PmSlaveGetUsersMask slave = 0).
Proof.
  split; [apply PmSlaveGetUsersMask_or|]. split; [|split].
  - intros n. rewrite PmSlaveGetUsersMask_or. apply or_of_users_testbit.
  - rewrite !PmSlaveGetUsersMask_or. cbn [set_reqs reqs]. unfold or_of_users.
    f_equal. f_equal. induction (reqs slave) as [|r l IH]; [reflexivity|].
    cbn [filter]. destruct (req_using r) eqn:Hr; cbn [filter].
    + rewrite Hr. now f_equal.
    + exact IH.
  - intros Hnone. unfold PmSlaveGetUsersMask.
    now apply PmSlaveGetUsersMask_loop_inactive.
Qed.

Lemma existsb_pointwise {A : Type} (f g : A -> bool) (l : list A) :
  (forall a, f a = g a) -> existsb f l = existsb g l.
Proof.
  intros Hfg. induction l as [|a l IH]; [reflexivity|].
  cbn [existsb]. now rewrite Hfg, IH.
Qed.

Lemma req_in_use_using (r : PmRequirement) : req_in_use r = req_using r.
Proof. unfold req_in_use, req_using. now rewrite Z.land_comm. Qed.

Lemma PmSlaveGetUsageStatus_loop_acc (cur oth : Z) (m : PmMaster)
  (l : list PmRequirement) :
  forall acc,
    PmSlaveGetUsageStatus_loop cur oth m l acc
    = Z.lor acc
        (Z.lor (if existsb (fun r => req_in_use r && same_master m (master r)) l
                then cur else 0)
               (if existsb (fun r => req_in_use r
                                     && negb (same_master m (master r))) l
                then oth else 0)).
Proof.
  induction l as [|r l IH]; intros acc;
    cbn [PmSlaveGetUsageStatus_loop existsb].
  - cbn. now rewrite Z.lor_0_r.
  - rewrite IH.
    destruct (req_in_use r), (same_master m (master r)); cbn [andb negb orb];
      try reflexivity.
    + destruct (existsb _ l), (existsb _ l); lor_bits.
    + destruct (existsb _ l), (existsb _ l); lor_bits.
Qed.


Lemma PmSlaveForceDown_reqs (env : PmCollaborators) (w : PmWorld) :
  reqs (slave_of (snd (PmSlaveForceDown env w)))
  = PmSlaveForceDown_loop (reqs (slave_of w)).
Proof.
  unfold PmSlaveForceDown, bind, update_slave, get_slave. cbn [slave_of node].
  destruct (negb _); [|reflexivity].
  now rewrite PmSlaveChangeState_reqs.
Qed.

Lemma or_of_users_zero_masks (l : list PmRequirement) :
  or_of_users l = 0 ->
  forall r, In r l -> req_using r = true -> ipiMask (master r) = 0.
Proof.
  intros Hz r Hin Hr. apply Z.bits_inj_0. intros n.
  pose proof (or_of_users_testbit l n) as Hn. rewrite Hz, Z.bits_0 in Hn.
  symmetry in Hn.
  destruct (Z.testbit (ipiMask (master r)) n) eqn:Hb; [|reflexivity].
  assert (Hex : existsb (fun q => req_using q
                                  && Z.testbit (ipiMask (master q)) n) l = true).
  { apply existsb_exists. exists r. split; [exact Hin|]. now rewrite Hr, Hb. }
  congruence.
Qed.

(** X7. [PmSlaveVerifyRequest] grants a request exactly when the slave is
    shareable or its users mask is zero, and returns [XST_PM_NODE_USED]
    otherwise; a slave that is not shareable and has a requirement in use
    by a master with a non-zero mask is refused, and one with no
    requirement in use is granted. *)
Theorem PmSlaveVerifyRequest_grants (XST_PM_NODE_USED : Z) (slave : PmSlave)
  (Hused : XST_PM_NODE_USED <> XST_SUCCESS) :
  (PmSlaveVerifyRequest XST_PM_NODE_USED slave = XST_SUCCESS <->
   (Z.land PM_SLAVE_FLAG_IS_SHAREABLE (flags slave) <> 0
    \/ PmSlaveGetUsersMask slave = 0))
  /\ (PmSlaveVerifyRequest XST_PM_NODE_USED slave = XST_SUCCESS
      \/ PmSlaveVerifyRequest XST_PM_NODE_USED slave = XST_PM_NODE_USED)
  /\ (Z.land PM_SLAVE_FLAG_IS_SHAREABLE (flags slave) = 0 ->
      forall r, In r (reqs slave) -> req_using r = true ->
                ipiMask (master r) <> 0 ->
                PmSlaveVerifyRequest XST_PM_NODE_USED slave = XST_PM_NODE_USED)
  /\ (forallb (fun r => negb (req_using r)) (reqs slave) = true ->
      PmSlaveVerifyRequest XST_PM_NODE_USED slave = XST_SUCCESS).
Proof.
  assert (Hiff : PmSlaveVerifyRequest XST_PM_NODE_USED slave = XST_SUCCESS <->
                 (Z.land PM_SLAVE_FLAG_IS_SHAREABLE (flags slave) <> 0
                  \/ PmSlaveGetUsersMask slave = 0)).
  { unfold PmSlaveVerifyRequest.
    destruct (Z.eqb_spec 0 (Z.land PM_SLAVE_FLAG_IS_SHAREABLE (flags slave)))
      as [Hz|Hnz]; cbn [negb].
    - destruct (Z.eqb_spec 0 (PmSlaveGetUsersMask slave)) as [Hu|Hu].
      + split; [intros _; right; congruence | reflexivity].
      + split; [intros He; now elim Hused|].
        intros [Hs|Hm]; congruence.
    - split; [intros _; left; congruence | reflexivity]. }
  split; [exact Hiff|]. split; [|split].
  - unfold PmSlaveVerifyRequest.
    destruct (negb _); [now left|]. destruct (0 =? _); [now left | now right].
  - intros Hns r Hin Hr Hmask. unfold PmSlaveVerifyRequest.
    rewrite Hns, Z.eqb_refl. cbn [negb].
    destruct (Z.eqb_spec 0 (PmSlaveGetUsersMask slave)) as [Hu|Hu];
      [|reflexivity].
    exfalso. apply Hmask. symmetry in Hu. rewrite PmSlaveGetUsersMask_or in Hu.
    exact (or_of_users_zero_masks _ Hu r Hin Hr).
  - intros Hnone. unfold PmSlaveVerifyRequest.
    destruct (negb _); [reflexivity|].
    unfold PmSlaveGetUsersMask.
    rewrite PmSlaveGetUsersMask_loop_inactive by exact Hnone.
    reflexivity.
Qed.

(** ** Further properties of the reconciliation pass *)

Lemma PmGetStateWithCaps_outcome (slave : PmSlave) (caps cell : Z) :
  (exists i, PmGetStateWithCaps slave caps (Some cell) = (XST_SUCCESS, Some i))
  \/ PmGetStateWithCaps slave caps (Some cell) = (XST_PM_CONFLICT, Some cell).
Proof.
  unfold PmGetStateWithCaps.
  destruct (first_index _ 0 _) as [k|]; [left; now exists k | now right].
Qed.

Lemma PmGetMaxCapabilities_or (slave : PmSlave) :
  PmGetMaxCapabilities slave = or_of_using (reqs slave).
Proof.
  unfold PmGetMaxCapabilities. rewrite PmGetMaxCapabilities_loop_acc.
  apply Z.lor_0_l.
Qed.

Lemma lowest_within_bound_unique (slave : PmSlave) (caps b i i' : Z) :
  lowest_within_bound slave caps b i ->
  lowest_within_bound slave caps b i' -> i = i'.
Proof.
  intros (Hr & Hw & Hlow) (Hr' & Hw' & Hlow').
  destruct (Z.lt_trichotomy i i') as [Hlt|[Heq|Hgt]]; [|exact Heq|].
  - exfalso. apply (Hlow' i); [lia | exact Hw].
  - exfalso. apply (Hlow i'); [lia | exact Hw'].
Qed.

(** The two outcomes of the resolution part of [PmUpdateSlave]. *)
Lemma PmUpdateSlave_resolve_outcome (slave : PmSlave) :
  0 < statesCnt (slvFsm slave) < 2 ^ PmStateId_bits ->
  (exists st,
      PmUpdateSlave_resolve slave
      = inr (st, PmGetMinRequestedLatency slave, PmGetLatencyFromState slave st)
      /\ lowest_within_bound slave (PmGetMaxCapabilities slave)
                             (PmGetMinRequestedLatency slave) st)
  \/ (PmUpdateSlave_resolve slave = inl XST_PM_CONFLICT
      /\ forall j, 0 <= j < statesCnt (slvFsm slave) ->
           ~ within_bound slave (PmGetMaxCapabilities slave)
                          (PmGetMinRequestedLatency slave) j).
Proof.
  intros Hpos. unfold PmUpdateSlave_resolve, lowest_within_bound.
  set (caps := PmGetMaxCapabilities slave). clearbody caps.
  set (b := PmGetMinRequestedLatency slave). clearbody b.
  set (sel := if negb (0 =? caps)
              then match PmGetStateWithCaps slave caps (Some 0) with
                   | (status, Some found) => (status, found)
                   | (status, None) => (status, 0)
                   end
              else (XST_SUCCESS, 0)).
  assert (Hsel : (exists st0, sel = (XST_SUCCESS, st0)
                              /\ lowest_superset (slvFsm slave) caps st0)
                 \/ (sel = (XST_PM_CONFLICT, 0)
                     /\ forall j, 0 <= j < statesCnt (slvFsm slave) ->
                          ~ superset_state (slvFsm slave) caps j)).
  { subst sel. destruct (Z.eqb_spec 0 caps) as [<-|Hnz]; cbn [negb].
    - left. exists 0. split; [reflexivity|].
      split; [lia|]. split; [apply Z.land_0_l|]. intros j Hj; lia.
    - destruct (PmGetStateWithCaps_outcome slave caps 0) as [[i Hi]|Hc].
      + left. exists i. rewrite Hi. split; [reflexivity|].
        now apply (PmGetStateWithCaps_found slave caps 0 i).
      + right. rewrite Hc. split; [reflexivity|].
        apply (PmGetStateWithCaps_conflict slave caps (Some 0)).
        now rewrite Hc. }
  clearbody sel.
  assert (Hce : (XST_PM_CONFLICT =? XST_SUCCESS) = false)
    by (apply Z.eqb_neq, XST_PM_CONFLICT_is_error).
  destruct Hsel as [(st0 & -> & Hr0 & Hs0 & Hlow0)|[-> Hnone]].
  - rewrite Z.eqb_refl. cbn [negb].
    assert (Hbelow : forall j, 0 <= j < st0 -> ~ within_bound slave caps b j).
    { intros j Hj [Hsup _]. now apply (Hlow0 j Hj). }
    destruct (Z.gtb_spec (PmGetLatencyFromState slave st0) b) as [Hgt|Hle].
    + assert (Hcnt : statesCnt (slvFsm slave) < 2 ^ PmStateId_bits) by lia.
      assert (H0 : 0 <= st0) by lia.
      destruct (PmConstrainStateByLatency_outcome slave st0 caps b)
        as [[i Hi]|Hc].
      * rewrite Hi, Z.eqb_refl. cbn [negb]. left. exists i.
        split; [reflexivity|].
        apply (PmConstrainStateByLatency_found slave st0 caps b i Hcnt H0) in Hi.
        destruct Hi as (Hri & Hwi & Hlowi).
        split; [lia|]. split; [exact Hwi|].
        intros j Hj. destruct (Z_lt_ge_dec j st0) as [Hl|Hg].
        -- apply Hbelow; lia.
        -- apply Hlowi; lia.
      * rewrite Hc, Hce. cbn [negb]. right. split; [reflexivity|].
        pose proof (proj1 (PmConstrainStateByLatency_conflict
                             slave st0 caps b Hcnt H0)) as Hn.
        rewrite Hc in Hn. specialize (Hn eq_refl).
        intros j Hj. destruct (Z_lt_ge_dec j st0) as [Hl|Hg].
        -- apply Hbelow; lia.
        -- apply Hn; lia.
    + left. exists st0. split; [reflexivity|].
      split; [exact Hr0|]. split; [now split | exact Hbelow].
  - rewrite Hce. cbn [negb]. right. split; [reflexivity|].
    intros j Hj [Hsup _]. now apply (Hnone j Hj).
Qed.

(** X8. For a slave with at least one state, the resolution part of
    [PmUpdateSlave] yields a state exactly when it is the lowest state that
    offers the aggregated capabilities with a latency within the
    aggregated bound; it stops with [XST_PM_CONFLICT], and with no other
    error, exactly when no state does. *)
Theorem PmUpdateSlave_resolve_lowest_within_bound (slave : PmSlave)
  (Hpos : 0 < statesCnt (slvFsm slave) < 2 ^ PmStateId_bits) :
  (forall st,
      (exists minLat wkupLat,
          PmUpdateSlave_resolve slave = inr (st, minLat, wkupLat)) <->
      lowest_within_bound slave (PmGetMaxCapabilities slave)
                          (PmGetMinRequestedLatency slave) st)
  /\ (forall e, PmUpdateSlave_resolve slave = inl e -> e = XST_PM_CONFLICT)
  /\ (PmUpdateSlave_resolve slave = inl XST_PM_CONFLICT <->
      forall j, 0 <= j < statesCnt (slvFsm slave) ->
        ~ within_bound slave (PmGetMaxCapabilities slave)
                       (PmGetMinRequestedLatency slave) j).
Proof.
  destruct (PmUpdateSlave_resolve_outcome slave Hpos)
    as [(st0 & Hres & Hlow)|[Hres Hnone]]; rewrite Hres.
  - split; [|split].
    + intros st. split.
      * intros (m & wk & [= <- _ _]). exact Hlow.
      * intros Hst. rewrite (lowest_within_bound_unique _ _ _ _ _ Hst Hlow).
        eauto.
    + discriminate.
    + split; [discriminate|]. intros Hnone. exfalso.
      destruct Hlow as (Hr & Hw & _). now apply (Hnone st0 Hr).
  - split; [|split].
    + intros st. split.
      * intros (m & wk & [=]).
      * intros (Hr & Hw & _). exfalso. now apply (Hnone st Hr).
    + now intros e [= <-].
    + split; [intros _; exact Hnone | reflexivity].
Qed.

Lemma currReq_within_or_of_using (l : list PmRequirement) (r : PmRequirement) :
  In r l -> req_using r = true ->
  Z.land (currReq r) (or_of_using l) = currReq r.
Proof.
  intros Hin Hr. apply Z.bits_inj'. intros n _.
  rewrite Z.land_spec, or_of_using_testbit.
  destruct (Z.testbit (currReq r) n) eqn:Hb; [|reflexivity].
  cbn [andb]. apply existsb_exists. exists r. split; [exact Hin|].
  now rewrite Hr, Hb.
Qed.

(** X9. The state the resolution part of [PmUpdateSlave] yields offers the
    capabilities of every requirement in use, and its latency to the
    highest state is within the bound of every requirement that sets
    one. *)
Theorem PmUpdateSlave_resolve_serves_every_master (slave : PmSlave)
  (st minLat wkupLat : Z)
  (Hpos : 0 < statesCnt (slvFsm slave) < 2 ^ PmStateId_bits)
  (Hres : PmUpdateSlave_resolve slave = inr (st, minLat, wkupLat)) :
  (forall r, In r (reqs slave) -> req_using r = true ->
             Z.land (currReq r) (states_at (slvFsm slave) st) = currReq r)
  /\ (forall r, In r (reqs slave) -> req_sets_latency r = true ->
                PmGetLatencyFromState slave st <= latencyReq r).
Proof.
  destruct (PmUpdateSlave_resolve_outcome slave Hpos)
    as [(st0 & Hres0 & _ & [Hsup Hlat] & _)|[Hres0 _]];
    rewrite Hres0 in Hres; [|discriminate].
  injection Hres as <- _ _. split.
  - intros r Hin Hr.
    apply (superset_state_subset _ (PmGetMaxCapabilities slave)); [|exact Hsup].
    rewrite PmGetMaxCapabilities_or. now apply currReq_within_or_of_using.
  - intros r Hin Hr.
    destruct (PmGetMinRequestedLatency_loop_min (reqs slave) MAX_LATENCY)
      as [Hall _].
    specialize (Hall r Hin Hr). unfold PmGetMinRequestedLatency in Hlat. lia.
Qed.

(** X10. When no state offers the aggregated capabilities within the
    aggregated latency bound, [PmUpdateSlave] returns [XST_PM_CONFLICT] and
    has no effect at all: the latency margin, the current state and the
    call log are as before. *)
Theorem PmUpdateSlave_conflict_no_effect (env : PmCollaborators) (w : PmWorld)
  (Hpos : 0 < statesCnt (slvFsm (slave_of w)) < 2 ^ PmStateId_bits)
  (Hnone : forall j, 0 <= j < statesCnt (slvFsm (slave_of w)) ->
             ~ within_bound (slave_of w) (PmGetMaxCapabilities (slave_of w))
                            (PmGetMinRequestedLatency (slave_of w)) j) :
  PmUpdateSlave env w = (XST_PM_CONFLICT, w).
Proof.
  destruct (PmUpdateSlave_resolve_outcome (slave_of w) Hpos)
    as [(st0 & _ & Hr & Hw & _)|[Hres _]].
  - exfalso. now apply (Hnone st0 Hr).
  - unfold PmUpdateSlave, bind, get_slave. rewrite Hres. reflexivity.
Qed.

(** X11. When the slave already is in the lowest state that offers the
    aggregated capabilities within the latency bound, [PmUpdateSlave]
    makes no state change: it stores the latency margin and, only if that
    state lacks [PM_CAP_POWER], notifies the power parent and returns the
    parent's status; no power or clock request, no transition action and
    no release is made. *)
Theorem PmUpdateSlave_no_change_in_resolved_state (env : PmCollaborators)
  (w : PmWorld)
  (Hpos : 0 < statesCnt (slvFsm (slave_of w)) < 2 ^ PmStateId_bits)
  (Hcur : lowest_within_bound (slave_of w) (PmGetMaxCapabilities (slave_of w))
            (PmGetMinRequestedLatency (slave_of w))
            (currState (node (slave_of w)))) :
  let marg := wrap32 (PmGetMinRequestedLatency (slave_of w)
                      - PmGetLatencyFromState (slave_of w)
                          (currState (node (slave_of w)))) in
  PmUpdateSlave env w
  = if HAS_CAPABILITIES (slave_of w) (currState (node (slave_of w))) PM_CAP_POWER
    then (XST_SUCCESS, mkPmWorld (set_latencyMarg marg (slave_of w)) (calls w))
    else (PmPowerUpdateLatencyReq_status env,
          mkPmWorld (set_latencyMarg marg (slave_of w))
                    (calls w ++ [CallPowerUpdateLatencyReq
                                   (PmPowerUpdateLatencyReq_status env)])).
Proof.
  cbv zeta.
  destruct (PmUpdateSlave_resolve_outcome (slave_of w) Hpos)
    as [(st0 & Hres & Hlow)|[_ Hnone]].
  - rewrite (lowest_within_bound_unique _ _ _ _ _ Hlow Hcur) in Hres.
    unfold PmUpdateSlave, bind, get_slave, update_slave. rewrite Hres.
    rewrite Z.eqb_refl. cbn [negb].
    destruct (HAS_CAPABILITIES _ _ _); reflexivity.
  - exfalso. destruct Hcur as (Hr & Hw & _). now apply (Hnone _ Hr).
Qed.

Lemma PmUpdateSlave_resolved (env : PmCollaborators) (w : PmWorld)
  (st minLat wkupLat : Z) :
  PmUpdateSlave_resolve (slave_of w) = inr (st, minLat, wkupLat) ->
  PmUpdateSlave env w
  = let w1 := mkPmWorld (set_latencyMarg (wrap32 (minLat - wkupLat)) (slave_of w))
                        (calls w) in
    if negb (st =? currState (node (slave_of w)))
    then PmSlaveChangeState env st w1
    else if negb (HAS_CAPABILITIES (slave_of w) st PM_CAP_POWER)
         then PmPowerUpdateLatencyReq env w1
         else (XST_SUCCESS, w1).
Proof.
  intros Hres. unfold PmUpdateSlave, bind at 1, get_slave at 1.
  rewrite Hres. unfold bind, update_slave, ret. cbv zeta.
  destruct (negb (st =? _)); [reflexivity|].
  destruct (negb (HAS_CAPABILITIES _ _ _)); reflexivity.
Qed.

(** X12. When [PmUpdateSlave] returns success, the slave is in the lowest
    state that offers the aggregated capabilities within the aggregated
    latency bound, and its requirement list is unchanged. *)
Theorem PmUpdateSlave_success_reaches_resolved_state (env : PmCollaborators)
  (w : PmWorld)
  (Hpos : 0 < statesCnt (slvFsm (slave_of w)) < 2 ^ PmStateId_bits)
  (Hok : fst (PmUpdateSlave env w) = XST_SUCCESS) :
  lowest_within_bound (slave_of w) (PmGetMaxCapabilities (slave_of w))
    (PmGetMinRequestedLatency (slave_of w))
    (currState (node (slave_of (snd (PmUpdateSlave env w)))))
  /\ reqs (slave_of (snd (PmUpdateSlave env w))) = reqs (slave_of w).
Proof.
  destruct (PmUpdateSlave_resolve_outcome (slave_of w) Hpos)
    as [(st0 & Hres & Hlow)|[Hres _]].
  - rewrite (PmUpdateSlave_resolved env w _ _ _ Hres) in *. cbv zeta in *.
    destruct (Z.eqb_spec st0 (currState (node (slave_of w)))) as [He|Hne];
      cbn [negb] in *.
    + destruct (negb (HAS_CAPABILITIES _ _ _)); cbn; rewrite <- He; now split.
    + rewrite PmSlaveChangeState_slave. rewrite Hok, Z.eqb_refl.
      cbn [slave_of set_latencyMarg node currState].
      destruct (Z.eqb_spec (currState (node (slave_of w))) st0) as [He|_];
        [congruence|].
      cbn. now split.
  - exfalso. revert Hok. unfold PmUpdateSlave, bind, get_slave.
    rewrite Hres. cbn. apply XST_PM_CONFLICT_is_error.
Qed.

(** X13. When [PmUpdateSlave] returns an error, whichever it is, the
    current state and the requirement list of the slave are unchanged and
    no release has been made. *)
Theorem PmUpdateSlave_failure_keeps_state (env : PmCollaborators) (w : PmWorld)
  (Hfail : fst (PmUpdateSlave env w) <> XST_SUCCESS) :
  currState (node (slave_of (snd (PmUpdateSlave env w))))
  = currState (node (slave_of w))
  /\ reqs (slave_of (snd (PmUpdateSlave env w))) = reqs (slave_of w)
  /\ exists new, calls (snd (PmUpdateSlave env w)) = calls w ++ new
                 /\ no_release new = true.
Proof.
  destruct (PmUpdateSlave_resolve (slave_of w)) as [e|[[st m] wk]] eqn:Hres.
  - assert (Heq : PmUpdateSlave env w = (e, w)).
    { unfold PmUpdateSlave, bind, get_slave. now rewrite Hres. }
    rewrite Heq. cbn. split; [reflexivity|]. split; [reflexivity|].
    exists []. now rewrite app_nil_r.
  - rewrite (PmUpdateSlave_resolved env w _ _ _ Hres) in *. cbv zeta in *.
    destruct (negb (st =? currState (node (slave_of w)))).
    + destruct (PmSlaveChangeState_aborted env st _ Hfail) as (Hs & _).
      rewrite Hs. cbn. split; [reflexivity|]. split; [reflexivity|].
      exact (PmSlaveChangeState_aborted_no_release env st _ Hfail).
    + destruct (negb (HAS_CAPABILITIES _ _ _)); cbn in *.
      * split; [reflexivity|]. split; [reflexivity|].
        eexists. split; reflexivity.
      * now elim Hfail.
Qed.

(** ** Further properties of the state change *)

Lemma tran_matches_iff (fsm : PmSlaveFsm) (curr state t : Z) :
  tran_matches fsm curr state t = true <->
  (fromState (trans_at fsm t) = curr /\ toState (trans_at fsm t) = state).
Proof.
  unfold tran_matches.
  rewrite negb_true_iff, orb_false_iff, !negb_false_iff, !Z.eqb_eq.
  reflexivity.
Qed.

Lemma PmSlaveChangeState_apply_success (state : Z) (w : PmWorld) :
  fst (PmSlaveChangeState_apply state w) = XST_SUCCESS ->
  transCnt (slvFsm (slave_of w)) = 0
  \/ has_transition (slvFsm (slave_of w)) (currState (node (slave_of w))) state.
Proof.
  pm_unfold. cbn [fst snd slave_of calls].
  destruct (first_index _ 0 _) as [t|] eqn:Hscan.
  - intros _. right. apply first_index_Some in Hscan.
    destruct Hscan as (Hr & Ht & _). apply tran_matches_iff in Ht.
    exists t. tauto.
  - destruct (Z.eqb_spec (transCnt (slvFsm (slave_of w))) 0) as [Hz|Hnz];
      cbn [fst]; [now left|].
    intros He. now apply XST_FAILURE_is_error in He.
Qed.

Lemma PmSlaveChangeState_status (env : PmCollaborators) (state : Z) (w : PmWorld) :
  fst (PmSlaveChangeState env state w)
  = if negb (fst (PmSlavePrepareState env state w) =? XST_SUCCESS)
    then fst (PmSlavePrepareState env state w)
    else fst (PmSlaveChangeState_apply state
                (snd (PmSlavePrepareState env state w))).
Proof.
  rewrite PmSlaveChangeState_unfold. cbv zeta.
  destruct (negb (fst (PmSlavePrepareState env state w) =? XST_SUCCESS));
    destruct (negb _ && _); reflexivity.
Qed.

(** X14. When [PmSlaveChangeState] returns success, the slave is in the
    target state, its requirement list, latency margin and FSM are
    untouched, and the move was allowed by the FSM: the transition table
    is empty or has an entry from the previous state to the target. *)
Theorem PmSlaveChangeState_success_follows_fsm (env : PmCollaborators)
  (state : Z) (w : PmWorld)
  (Hok : fst (PmSlaveChangeState env state w) = XST_SUCCESS) :
  currState (node (slave_of (snd (PmSlaveChangeState env state w)))) = state
  /\ reqs (slave_of (snd (PmSlaveChangeState env state w))) = reqs (slave_of w)
  /\ latencyMarg (node (slave_of (snd (PmSlaveChangeState env state w))))
     = latencyMarg (node (slave_of w))
  /\ slvFsm (slave_of (snd (PmSlaveChangeState env state w)))
     = slvFsm (slave_of w)
  /\ (transCnt (slvFsm (slave_of w)) = 0
      \/ has_transition (slvFsm (slave_of w))
                        (currState (node (slave_of w))) state).
Proof.
  rewrite PmSlaveChangeState_slave, Hok, Z.eqb_refl, andb_true_r.
  split; [|split; [|split; [|split]]].
  - destruct (Z.eqb_spec (currState (node (slave_of w))) state);
      cbn [negb]; [assumption | reflexivity].
  - now destruct (negb _).
  - now destruct (negb _).
  - now destruct (negb _).
  - rewrite PmSlaveChangeState_status in Hok.
    destruct (Z.eqb_spec (fst (PmSlavePrepareState env state w)) XST_SUCCESS)
      as [Hp|Hp]; cbn [negb] in Hok; [|contradiction].
    apply PmSlaveChangeState_apply_success in Hok.
    destruct (PmSlavePrepareState_effect env state w) as (Hps & _).
    now rewrite Hps in Hok.
Qed.

Lemma PmSlavePrepareState_log (env : PmCollaborators) (next : Z) (w : PmWorld) :
  calls (snd (PmSlavePrepareState env next w))
  = calls w ++ prepare_log env (slave_of w) next.
Proof.
  unfold prepare_log, wants_power_request, wants_clock_request.
  pm_unfold. cbn [fst snd slave_of calls].
  destruct (parent (node (slave_of w))) as [p|].
  - destruct (newly_needs _ _ _ PM_CAP_POWER); cbn [fst snd slave_of calls].
    + destruct (negb (PmPowerRequestParent_status env =? XST_SUCCESS));
        cbn [fst snd slave_of calls]; [reflexivity|].
      destruct (clocks _ && _); cbn [fst snd slave_of calls].
      * now rewrite <- app_assoc.
      * reflexivity.
    + rewrite Z.eqb_refl. cbn [negb].
      destruct (clocks _ && _); cbn [fst snd slave_of calls];
        [reflexivity | now rewrite app_nil_r].
  - rewrite Z.eqb_refl. cbn [negb fst snd slave_of calls].
    destruct (clocks _ && _); cbn [fst snd slave_of calls];
      [reflexivity | now rewrite app_nil_r].
Qed.

Lemma PmSlaveClearAfterState_log (prev : Z) (w : PmWorld) :
  calls (snd (PmSlaveClearAfterState prev w))
  = calls w ++ settle_log (slave_of w) prev (currState (node (slave_of w))).
Proof.
  unfold settle_log, wants_clock_release, wants_power_release.
  pm_unfold. cbn [fst snd slave_of calls].
  destruct (clocks _ && _); cbn [fst snd slave_of calls];
    destruct (parent (node (slave_of w))) as [p|];
    cbn [fst snd slave_of calls app];
    try destruct (no_longer_needs _ _ _ PM_CAP_POWER);
    cbn [fst snd slave_of calls app];
    rewrite <- ?app_assoc, ?app_nil_r; reflexivity.
Qed.

(** The call log of a state change: the prepare phase, at most the
    transition action, and the settle phase when the change took place. *)
Lemma PmSlaveChangeState_log (env : PmCollaborators) (state : Z) (w : PmWorld) :
  exists act,
    (act = [] \/ exists s, act = [CallEnterState state s])
    /\ calls (snd (PmSlaveChangeState env state w))
       = calls w ++ prepare_log env (slave_of w) state ++ act
         ++ (if negb (currState (node (slave_of w)) =? state)
                && (fst (PmSlaveChangeState env state w) =? XST_SUCCESS)
             then settle_log (slave_of w) (currState (node (slave_of w))) state
             else []).
Proof.
  rewrite PmSlaveChangeState_unfold. cbv zeta.
  pose proof (PmSlavePrepareState_log env state w) as Hpl.
  destruct (PmSlavePrepareState_effect env state w) as (Hps & _).
  set (prep := PmSlavePrepareState env state w) in *.
  assert (Happl : exists act,
             (act = [] \/ exists s, act = [CallEnterState state s])
             /\ slave_of (snd (if negb (fst prep =? XST_SUCCESS) then prep
                               else PmSlaveChangeState_apply state (snd prep)))
                = slave_of w
             /\ calls (snd (if negb (fst prep =? XST_SUCCESS) then prep
                            else PmSlaveChangeState_apply state (snd prep)))
                = calls w ++ prepare_log env (slave_of w) state ++ act).
  { destruct (negb (fst prep =? XST_SUCCESS)).
    - exists []. split; [now left|]. split; [exact Hps|].
      now rewrite Hpl, app_nil_r.
    - destruct (PmSlaveChangeState_apply_effect state (snd prep))
        as [Has [Hac|Hac]].
      + exists []. split; [now left|]. split; [congruence|].
        now rewrite Hac, Hpl, app_nil_r.
      + eexists. split; [right; eexists; reflexivity|]. split; [congruence|].
        now rewrite Hac, Hpl, <- app_assoc. }
  set (appl := if negb (fst prep =? XST_SUCCESS) then prep
               else PmSlaveChangeState_apply state (snd prep)) in *.
  destruct Happl as (act & Hact & Has & Hac). exists act.
  split; [exact Hact|].
  destruct (negb (currState (node (slave_of w)) =? state)
            && (fst appl =? XST_SUCCESS)) eqn:Hc; cbn [fst snd].
  - rewrite Hc. rewrite PmSlaveClearAfterState_log.
    unfold PmNodeUpdateCurrState, update_slave. cbn [snd slave_of calls].
    rewrite Hac, Has, <- !app_assoc. reflexivity.
  - rewrite Hc, Hac, app_nil_r. reflexivity.
Qed.

Lemma prepare_log_requests (env : PmCollaborators) (slave : PmSlave)
  (next : Z) (c : PmCall) :
  In c (prepare_log env slave next) ->
  (exists s, c = CallPowerRequestParent s
             /\ wants_power_request slave next = true)
  \/ (exists s, c = CallClockRequest s
                /\ wants_clock_request slave next = true).
Proof.
  unfold prepare_log.
  destruct (wants_power_request slave next);
    [destruct (negb (PmPowerRequestParent_status env =? XST_SUCCESS))|];
    destruct (wants_clock_request slave next);
    cbn [In]; intros H; repeat destruct H as [H|H]; try contradiction;
    subst c; eauto.
Qed.

Lemma settle_log_releases (slave : PmSlave) (prev curr : Z) (c : PmCall) :
  In c (settle_log slave prev curr) ->
  (c = CallClockRelease /\ wants_clock_release slave prev curr = true)
  \/ (c = CallPowerReleaseParent /\ wants_power_release slave prev curr = true).
Proof.
  unfold settle_log.
  destruct (wants_clock_release slave prev curr);
    destruct (wants_power_release slave prev curr);
    cbn [In app]; intros H; repeat destruct H as [H|H]; try contradiction;
    subst c; auto.
Qed.

(** X15. The calls of [PmSlaveChangeState]. The power parent is released
    only by a call that returns success and moves the slave from a state
    with [PM_CAP_POWER] to one without; it is requested only when the
    slave, having a parent, is to move from a state without
    [PM_CAP_POWER] to one with it; the same holds for the clocks with
    [PM_CAP_CLOCK]. One call never both requests and releases the same
    resource. *)
Theorem PmSlaveChangeState_call_discipline (env : PmCollaborators)
  (state : Z) (w : PmWorld) :
  let slave := slave_of w in
  let old := currState (node slave) in
  exists new,
    calls (snd (PmSlaveChangeState env state w)) = calls w ++ new
    /\ (In CallPowerReleaseParent new ->
        fst (PmSlaveChangeState env state w) = XST_SUCCESS
        /\ wants_power_release slave old state = true)
    /\ (In CallClockRelease new ->
        fst (PmSlaveChangeState env state w) = XST_SUCCESS
        /\ wants_clock_release slave old state = true)
    /\ (forall s, In (CallPowerRequestParent s) new ->
                  wants_power_request slave state = true)
    /\ (forall s, In (CallClockRequest s) new ->
                  wants_clock_request slave state = true)
    /\ ~ (wants_power_request slave state = true
          /\ wants_power_release slave old state = true)
    /\ ~ (wants_clock_request slave state = true
          /\ wants_clock_release slave old state = true).
Proof.
  cbv zeta.
  destruct (PmSlaveChangeState_log env state w) as (act & Hact & Hlog).
  eexists. split; [exact Hlog|].
  assert (Hsplit : forall c,
             In c (prepare_log env (slave_of w) state ++ act
                   ++ (if negb (currState (node (slave_of w)) =? state)
                          && (fst (PmSlaveChangeState env state w)
                              =? XST_SUCCESS)
                       then settle_log (slave_of w)
                              (currState (node (slave_of w))) state
                       else [])) ->
             In c (prepare_log env (slave_of w) state)
             \/ (exists s, c = CallEnterState state s)
             \/ (fst (PmSlaveChangeState env state w) = XST_SUCCESS
                 /\ In c (settle_log (slave_of w)
                            (currState (node (slave_of w))) state))).
  { intros c Hin. apply in_app_or in Hin. destruct Hin as [Hin|Hin];
      [now left|].
    apply in_app_or in Hin. destruct Hin as [Hin|Hin].
    - right. left. destruct Hact as [->|[s ->]]; [contradiction|].
      destruct Hin as [<-|[]]. now exists s.
    - right. right.
      destruct (negb _ && (fst _ =? XST_SUCCESS)) eqn:Hc; [|contradiction].
      apply andb_true_iff in Hc. destruct Hc as [_ Hc].
      apply Z.eqb_eq in Hc. now split. }
  split; [|split; [|split; [|split; [|split]]]].
  - intros Hin. destruct (Hsplit _ Hin) as [Hp|[[s Hs]|[Hok Hs]]].
    + apply prepare_log_requests in Hp.
      destruct Hp as [(s & Hs & _)|(s & Hs & _)]; discriminate.
    + discriminate.
    + apply settle_log_releases in Hs.
      destruct Hs as [[Hs _]|[_ Hw]]; [discriminate | now split].
  - intros Hin. destruct (Hsplit _ Hin) as [Hp|[[s Hs]|[Hok Hs]]].
    + apply prepare_log_requests in Hp.
      destruct Hp as [(s & Hs & _)|(s & Hs & _)]; discriminate.
    + discriminate.
    + apply settle_log_releases in Hs.
      destruct Hs as [[_ Hw]|[Hs _]]; [now split | discriminate].
  - intros s Hin. destruct (Hsplit _ Hin) as [Hp|[[s' Hs]|[Hok Hs]]].
    + apply prepare_log_requests in Hp.
      destruct Hp as [(s' & _ & Hw)|(s' & Hs & _)]; [exact Hw | discriminate].
    + discriminate.
    + apply settle_log_releases in Hs.
      destruct Hs as [[Hs _]|[Hs _]]; discriminate.
  - intros s Hin. destruct (Hsplit _ Hin) as [Hp|[[s' Hs]|[Hok Hs]]].
    + apply prepare_log_requests in Hp.
      destruct Hp as [(s' & Hs & _)|(s' & _ & Hw)]; [discriminate | exact Hw].
    + discriminate.
    + apply settle_log_releases in Hs.
      destruct Hs as [[Hs _]|[Hs _]]; discriminate.
  - unfold wants_power_request, wants_power_release, newly_needs,
      no_longer_needs.
    destruct (parent (node (slave_of w))); [|intros [H _]; discriminate].
    destruct (lacks_cap _ (currState (node (slave_of w))) PM_CAP_POWER);
      cbn [negb andb]; intros [H1 H2]; discriminate.
  - unfold wants_clock_request, wants_clock_release, newly_needs,
      no_longer_needs.
    destruct (clocks (node (slave_of w))); [|intros [H _]; discriminate].
    destruct (lacks_cap _ (currState (node (slave_of w))) PM_CAP_CLOCK);
      cbn [negb andb]; intros [H1 H2]; discriminate.
Qed.

(** ** Further properties of force-down and configuration *)

Lemma PmSlaveForceDown_unfold (env : PmCollaborators) (w : PmWorld) :
  PmSlaveForceDown env w
  = let cleared :=
      mkPmWorld (set_reqs (PmSlaveForceDown_loop (reqs (slave_of w)))
                          (slave_of w))
                (calls w) in
    if negb (0 =? currState (node (slave_of w)))
    then PmSlaveChangeState env 0 cleared
    else (XST_SUCCESS, cleared).
Proof.
  unfold PmSlaveForceDown, bind, update_slave, get_slave, ret.
  cbn [slave_of node set_reqs currState].
  destruct (negb _); reflexivity.
Qed.

(** X16. [PmSlaveForceDown] leaves the slave in state 0 whenever it returns
    success, and the move from a non-zero state was allowed by the FSM
    (empty transition table or an entry from the previous state to 0).
    When it returns an error the slave was not in state 0 and stays in the
    state it was in, and nothing has been released. *)
Theorem PmSlaveForceDown_state (env : PmCollaborators) (w : PmWorld) :
  (fst (PmSlaveForceDown env w) = XST_SUCCESS ->
   currState (node (slave_of (snd (PmSlaveForceDown env w)))) = 0
   /\ (currState (node (slave_of w)) <> 0 ->
       transCnt (slvFsm (slave_of w)) = 0
       \/ has_transition (slvFsm (slave_of w))
                         (currState (node (slave_of w))) 0))
  /\ (fst (PmSlaveForceDown env w) <> XST_SUCCESS ->
      currState (node (slave_of w)) <> 0
      /\ currState (node (slave_of (snd (PmSlaveForceDown env w))))
         = currState (node (slave_of w))
      /\ exists new, calls (snd (PmSlaveForceDown env w)) = calls w ++ new
                     /\ no_release new = true).
Proof.
  rewrite PmSlaveForceDown_unfold. cbv zeta.
  destruct (Z.eqb_spec 0 (currState (node (slave_of w)))) as [Hz|Hnz];
    cbn [negb].
  - split.
    + intros _. cbn. split; [congruence|]. intros Hn. congruence.
    + intros Hf. now elim Hf.
  - split.
    + intros Hok.
      pose proof (PmSlaveChangeState_slave env 0
                    (mkPmWorld (set_reqs (PmSlaveForceDown_loop
                                            (reqs (slave_of w))) (slave_of w))
                               (calls w))) as Hs.
      rewrite Hok, Z.eqb_refl in Hs. cbn [slave_of set_reqs node currState] in Hs.
      destruct (Z.eqb_spec (currState (node (slave_of w))) 0) as [He|_];
        [congruence|].
      cbn [negb andb] in Hs. rewrite Hs. split; [reflexivity|]. intros _.
      rewrite PmSlaveChangeState_status in Hok.
      destruct (Z.eqb_spec (fst (PmSlavePrepareState env 0
                   (mkPmWorld (set_reqs (PmSlaveForceDown_loop
                                           (reqs (slave_of w))) (slave_of w))
                              (calls w)))) XST_SUCCESS) as [Hp|Hp];
        cbn [negb] in Hok; [|contradiction].
      apply PmSlaveChangeState_apply_success in Hok.
      destruct (PmSlavePrepareState_effect env 0
                  (mkPmWorld (set_reqs (PmSlaveForceDown_loop
                                          (reqs (slave_of w))) (slave_of w))
                             (calls w))) as (Hps & _).
      rewrite Hps in Hok. exact Hok.
    + intros Hfail. split; [congruence|].
      destruct (PmSlaveChangeState_aborted env 0 _ Hfail) as (Hs & _).
      rewrite Hs. split; [reflexivity|].
      exact (PmSlaveChangeState_aborted_no_release env 0 _ Hfail).
Qed.

Lemma PmSlaveForceDown_loop_idempotent (l : list PmRequirement) :
  PmSlaveForceDown_loop (PmSlaveForceDown_loop l) = PmSlaveForceDown_loop l.
Proof.
  induction l as [|r l IH]; cbn [PmSlaveForceDown_loop]; [reflexivity|].
  rewrite IH. destruct (req_using r) eqn:Hr.
  - now rewrite req_using_PmRequirementClear.
  - now rewrite Hr.
Qed.

Lemma set_reqs_same (slave : PmSlave) : set_reqs (reqs slave) slave = slave.
Proof. now destruct slave. Qed.

(** X17. A force-down that succeeded is not repeated: a second
    [PmSlaveForceDown], whatever the collaborators would answer, returns
    success, makes no call and leaves the slave exactly as the first one
    left it. *)
Theorem PmSlaveForceDown_idempotent (env env' : PmCollaborators) (w : PmWorld)
  (Hok : fst (PmSlaveForceDown env w) = XST_SUCCESS) :
  PmSlaveForceDown env' (snd (PmSlaveForceDown env w))
  = (XST_SUCCESS, snd (PmSlaveForceDown env w)).
Proof.
  assert (Hst : currState (node (slave_of (snd (PmSlaveForceDown env w)))) = 0).
  { revert Hok. rewrite PmSlaveForceDown_unfold. cbv zeta.
    destruct (Z.eqb_spec 0 (currState (node (slave_of w)))) as [Hz|Hnz];
      cbn [negb].
    - intros _. cbn. congruence.
    - intros Hok. rewrite PmSlaveChangeState_slave, Hok, Z.eqb_refl.
      cbn [slave_of set_reqs node currState].
      destruct (Z.eqb_spec (currState (node (slave_of w))) 0) as [He|_];
        [congruence | reflexivity]. }
  pose proof (PmSlaveForceDown_reqs env w) as Hreqs.
  rewrite (PmSlaveForceDown_unfold env'). cbv zeta.
  rewrite Hst, Hreqs, PmSlaveForceDown_loop_idempotent, <- Hreqs, set_reqs_same.
  cbn [Z.eqb negb]. now destruct (snd (PmSlaveForceDown env w)).
Qed.

Lemma config_over_all_resolved
  (PmGetMasterByIpiMask : Z -> option PmMaster)
  (PmRequirementAdd : PmMaster -> PmSlave -> Z * PmSlave)
  (masks : list Z) (masters : list PmMaster) :
  Forall2 (fun b mst => PmGetMasterByIpiMask b = Some mst) masks masters ->
  forall slave,
    Forall (fun mst => forall s, fst (PmRequirementAdd mst s) = XST_SUCCESS)
           masters ->
    config_over PmGetMasterByIpiMask PmRequirementAdd masks slave
    = (XST_SUCCESS, bind_all PmRequirementAdd masters slave).
Proof.
  intros Hknown.
  induction Hknown as [|b mst masks masters Hb Hrest IH]; intros slave Hadd;
    cbn [config_over bind_all]; [reflexivity|].
  rewrite Hb. inversion Hadd as [|? ? Hok Hadd']; subst.
  specialize (Hok slave).
  destruct (PmRequirementAdd mst slave) as [status slave']. cbn [fst snd] in *.
  rewrite Hok, Z.eqb_refl. cbn [negb]. now apply IH.
Qed.

(** X18. When every mask of [perms] resolves to a master and every
    requirement is added successfully, [PmSlaveSetConfig] returns success
    after binding, from the lowest bit up, exactly one master per bit set
    in [perms], on the slave whose shareable flag was set as the policy
    asks. With the requirement module as the spec describes it, every one
    of these masters is bound to the slave afterwards. *)
Theorem PmSlaveSetConfig_all_resolved
  (PmGetMasterByIpiMask : Z -> option PmMaster)
  (PmRequirementAdd : PmMaster -> PmSlave -> Z * PmSlave)
  (slave : PmSlave) (policy perms : Z) (masters : list PmMaster)
  (Hknown : Forall2 (fun b mst => PmGetMasterByIpiMask b = Some mst)
                    (masks_of perms) masters)
  (Hadd : Forall (fun mst => forall s, fst (PmRequirementAdd mst s) = XST_SUCCESS)
                 masters) :
  PmSlaveSetConfig PmGetMasterByIpiMask PmRequirementAdd slave policy perms
  = (XST_SUCCESS, bind_all PmRequirementAdd masters (with_policy policy slave))
  /\ Z.of_nat (length masters) = popcount32 perms
  /\ (forall mst, In mst masters ->
        bound_to mst (bind_all PmRequirementAdd_model masters
                               (with_policy policy slave)) = true).
Proof.
  split; [|split].
  - rewrite PmSlaveSetConfig_masks. now apply config_over_all_resolved.
  - apply Forall2_length in Hknown. rewrite <- Hknown.
    unfold masks_of, popcount32. now rewrite length_map.
  - intros mst Hin. now apply bind_all_model_binds.
Qed.

(** X19. After [PmSlaveClearConfig] the slave has no user and is not
    shareable, so [PmSlaveVerifyRequest] grants the next request; no
    capability and no latency bound is aggregated, and with table
    latencies in the [u32] range the resolution part of [PmUpdateSlave]
    yields state 0 without conflict. *)
Theorem PmSlaveClearConfig_resets (XST_PM_NODE_USED : Z) (slave : PmSlave)
  (Hu32 : forallb (fun t => is_u32 (latency t)) (trans (slvFsm slave)) = true) :
  PmSlaveGetUsersMask (PmSlaveClearConfig slave) = 0
  /\ PmGetMaxCapabilities (PmSlaveClearConfig slave) = 0
  /\ PmGetMinRequestedLatency (PmSlaveClearConfig slave) = MAX_LATENCY
  /\ PmSlaveVerifyRequest XST_PM_NODE_USED (PmSlaveClearConfig slave)
     = XST_SUCCESS
  /\ PmUpdateSlave_resolve (PmSlaveClearConfig slave)
     = inr (0, MAX_LATENCY, PmGetLatencyFromState slave 0).
Proof.
  split; [reflexivity|]. split; [reflexivity|]. split; [reflexivity|].
  split.
  - unfold PmSlaveVerifyRequest, PmSlaveClearConfig. cbn [flags set_flags].
    rewrite Z.land_0_r. reflexivity.
  - rewrite resolve_with_zero_caps_unfold by reflexivity. cbv zeta.
    change (PmGetMinRequestedLatency (PmSlaveClearConfig slave))
      with MAX_LATENCY.
    change (PmGetLatencyFromState (PmSlaveClearConfig slave) 0)
      with (PmGetLatencyFromState slave 0).
    pose proof (PmGetLatencyFromState_nonneg slave 0 Hu32) as Hb.
    destruct (Z.gtb_spec (PmGetLatencyFromState slave 0) MAX_LATENCY);
      [lia | reflexivity].
Qed.

Lemma PmGetLatencyFromState_fsm (slave slave' : PmSlave) (state : Z) :
  slvFsm slave = slvFsm slave' ->
  PmGetLatencyFromState slave state = PmGetLatencyFromState slave' state.
Proof. intros Hf. unfold PmGetLatencyFromState. now rewrite Hf. Qed.

(** X20. Less demanding requirements never lead to a higher state nor to a
    conflict: for two sets of requirements on the same FSM, when the
    aggregated capabilities of the second are a subset of those of the
    first and its aggregated latency bound is not smaller, and the
    resolution part of [PmUpdateSlave] yields state [st] for the first,
    then it yields a state [st' <= st] for the second. *)
Theorem PmUpdateSlave_resolve_monotone (slave slave' : PmSlave)
  (st minLat wkupLat : Z)
  (Hpos : 0 < statesCnt (slvFsm slave) < 2 ^ PmStateId_bits)
  (Hfsm : slvFsm slave' = slvFsm slave)
  (Hcaps : Z.land (PmGetMaxCapabilities slave') (PmGetMaxCapabilities slave)
           = PmGetMaxCapabilities slave')
  (Hlat : PmGetMinRequestedLatency slave <= PmGetMinRequestedLatency slave')
  (Hres : PmUpdateSlave_resolve slave = inr (st, minLat, wkupLat)) :
  exists st',
    PmUpdateSlave_resolve slave'
    = inr (st', PmGetMinRequestedLatency slave',
           PmGetLatencyFromState slave' st')
    /\ 0 <= st' <= st.
Proof.
  destruct (PmUpdateSlave_resolve_outcome slave Hpos)
    as [(st0 & Hres0 & Hr & [Hsup Hb] & _)|[Hres0 _]];
    rewrite Hres0 in Hres; [|discriminate].
  injection Hres as <- _ _.
  assert (Hpos' : 0 < statesCnt (slvFsm slave') < 2 ^ PmStateId_bits)
    by now rewrite Hfsm.
  assert (Hw : within_bound slave' (PmGetMaxCapabilities slave')
                 (PmGetMinRequestedLatency slave') st0).
  { split.
    - rewrite Hfsm. exact (superset_state_subset _ _ _ _ Hcaps Hsup).
    - rewrite (PmGetLatencyFromState_fsm slave' slave st0 Hfsm). lia. }
  destruct (PmUpdateSlave_resolve_outcome slave' Hpos')
    as [(st' & Hres' & Hr' & _ & Hlow')|[_ Hnone]].
  - exists st'. split; [exact Hres'|]. split; [lia|].
    destruct (Z_le_gt_dec st' st0) as [Hle|Hgt]; [exact Hle|].
    exfalso. apply (Hlow' st0); [lia | exact Hw].
  - exfalso. apply (Hnone st0); [now rewrite Hfsm | exact Hw].
Qed.

Lemma config_over_success_resolved
  (PmGetMasterByIpiMask : Z -> option PmMaster)
  (PmRequirementAdd : PmMaster -> PmSlave -> Z * PmSlave)
  (masks : list Z) :
  forall slave,
    fst (config_over PmGetMasterByIpiMask PmRequirementAdd masks slave)
    = XST_SUCCESS ->
    forall m, In m masks -> PmGetMasterByIpiMask m <> None.
Proof.
  induction masks as [|b masks IH]; intros slave Hok m Hin;
    [contradiction|].
  cbn [config_over] in Hok.
  destruct (PmGetMasterByIpiMask b) as [mst|] eqn:Hb.
  - destruct (PmRequirementAdd mst slave) as [status slave'].
    destruct (Z.eqb_spec status XST_SUCCESS) as [Hs|Hs]; cbn [negb fst] in Hok;
      [|contradiction].
    destruct Hin as [<-|Hin]; [congruence|].
    exact (IH slave' Hok m Hin).
  - cbn [fst] in Hok. now apply XST_FAILURE_is_error in Hok.
Qed.

(** X21. [PmSlaveSetConfig] never reports success with an unresolved mask:
    when it returns [XST_SUCCESS], every bit set in [perms] resolved to a
    master. *)
Theorem PmSlaveSetConfig_success_all_known
  (PmGetMasterByIpiMask : Z -> option PmMaster)
  (PmRequirementAdd : PmMaster -> PmSlave -> Z * PmSlave)
  (slave : PmSlave) (policy perms : Z)
  (Hok : fst (PmSlaveSetConfig PmGetMasterByIpiMask PmRequirementAdd
                               slave policy perms) = XST_SUCCESS) :
  forall m, In m (masks_of perms) -> PmGetMasterByIpiMask m <> None.
Proof.
  rewrite PmSlaveSetConfig_masks in Hok.
  exact (config_over_success_resolved _ _ _ _ Hok).
Qed.

End Proofs.

(** ** The theorems on the concrete tables *)

#[local] Existing Instance zynqmp.

(** Spec, S1: the two requests add up to power and clock, state 2. *)
Example S1_resolves_to_state_2 :
  PmGetMaxCapabilities slave3 = 24
  /\ PmUpdateSlave_resolve slave3 = inr (2, 60, 0).
Proof. split; reflexivity. Qed.

(** Spec, S5: a capability no state offers is a conflict. *)
Example S5_conflict :
  PmGetStateWithCaps slave3 32 (Some 0) = (XST_PM_CONFLICT, Some 0).
Proof. reflexivity. Qed.

Lemma PmGetStateWithCaps_lowest_superset_witness :
  lowest_superset fsm3 24 2.
Proof.
  exact (proj1 (proj1 (PmGetStateWithCaps_lowest_superset slave3 24 0) 2)
               eq_refl).
Defined.

Lemma PmGetMaxCapabilities_or_of_using_witness :
  PmGetMaxCapabilities slave3 = or_of_using (reqs slave3).
Proof. exact (proj1 (PmGetMaxCapabilities_or_of_using slave3)). Defined.

Lemma PmConstrainStateByLatency_first_within_bound_witness :
  statesCnt (slvFsm slave3) < 2 ^ PmStateId_bits /\ 0 <= 1
  /\ (1 <= 2 < statesCnt (slvFsm slave3) /\ within_bound slave3 8 10 2
      /\ forall j, 1 <= j < 2 -> ~ within_bound slave3 8 10 j).
Proof.
  assert (Hcnt : statesCnt (slvFsm slave3) < 2 ^ PmStateId_bits)
    by (vm_compute; reflexivity).
  assert (Hs : 0 <= 1) by lia.
  split; [exact Hcnt|]. split; [exact Hs|].
  exact (proj1 (proj1 (PmConstrainStateByLatency_first_within_bound
                         slave3 1 8 10 Hcnt Hs) 2) eq_refl).
Defined.

(** C2, the statement fails: the slave is held with no capability and a
    latency bound of 10, state 0 needs 100 to reach the top state, and the
    pass resolves to state 1. *)
Lemma zero_caps_resolve_to_state0_counterexample :
  ~ zero_caps_resolve_to_state0 slave_idle_bounded.
Proof.
  intros H. specialize (H eq_refl 1 10 0 eq_refl). discriminate H.
Qed.

Example zero_caps_update_moves_to_state_1 :
  PmGetMaxCapabilities slave_idle_bounded = 0
  /\ currState (node (slave_of (snd (PmUpdateSlave env_ok
                                       (mkPmWorld slave_idle_bounded [])))))
     = 1.
Proof. split; reflexivity. Qed.

Lemma PmUpdateSlave_resolve_zero_caps_witness :
  PmGetMaxCapabilities slave_idle_bounded = 0
  /\ statesCnt (slvFsm slave_idle_bounded) < 2 ^ PmStateId_bits
  /\ (0 <= 1 < statesCnt (slvFsm slave_idle_bounded)
      /\ PmGetLatencyFromState slave_idle_bounded 1
         <= PmGetMinRequestedLatency slave_idle_bounded
      /\ forall j, 0 <= j < 1 ->
           PmGetMinRequestedLatency slave_idle_bounded
           < PmGetLatencyFromState slave_idle_bounded j).
Proof.
  assert (Hcaps : PmGetMaxCapabilities slave_idle_bounded = 0) by reflexivity.
  assert (Hcnt : statesCnt (slvFsm slave_idle_bounded) < 2 ^ PmStateId_bits)
    by (vm_compute; reflexivity).
  split; [exact Hcaps|]. split; [exact Hcnt|].
  assert (Hgt : PmGetMinRequestedLatency slave_idle_bounded
                < PmGetLatencyFromState slave_idle_bounded 0)
    by (vm_compute; reflexivity).
  exact (proj1 (proj1 (proj2 (PmUpdateSlave_resolve_zero_caps
                                slave_idle_bounded Hcaps Hcnt) Hgt) 1)
               eq_refl).
Defined.

Lemma PmSlaveChangeState_failure_atomic_witness :
  (PmSlaveChangeState env_clock_fails 1 (mkPmWorld slave_pc [])
   = PmSlavePrepareState env_clock_fails 1 (mkPmWorld slave_pc [])
   /\ currState (node (slave_of (snd (PmSlaveChangeState env_clock_fails 1
                                        (mkPmWorld slave_pc [])))))
      = currState (node slave_pc))
  /\ (currState (node (slave_of (snd (PmSlaveChangeState env_ok 1
                                        (mkPmWorld slave_no_edge [])))))
      = currState (node slave_no_edge)
      /\ exists new,
           calls (snd (PmSlaveChangeState env_ok 1 (mkPmWorld slave_no_edge [])))
           = [] ++ new /\ no_release new = true).
Proof.
  split.
  - assert (Hbad : fst (PmSlavePrepareState env_clock_fails 1
                          (mkPmWorld slave_pc [])) <> XST_SUCCESS)
      by (vm_compute; discriminate).
    pose proof (proj1 (PmSlaveChangeState_failure_atomic env_clock_fails 1
                         (mkPmWorld slave_pc [])) Hbad) as (H1 & H2 & _).
    split; [exact H1 | exact H2].
  - assert (Hok : fst (PmSlavePrepareState env_ok 1
                         (mkPmWorld slave_no_edge [])) = XST_SUCCESS)
      by reflexivity.
    assert (Hfail : fst (PmSlaveChangeState env_ok 1
                           (mkPmWorld slave_no_edge [])) <> XST_SUCCESS)
      by (vm_compute; discriminate).
    pose proof (proj1 (proj2 (PmSlaveChangeState_failure_atomic env_ok 1
                                (mkPmWorld slave_no_edge []))) Hok Hfail)
      as (_ & H2 & _ & H4).
    split; [exact H2 | exact H4].
Defined.

(** C5, the statement fails: the power-parent request succeeds, the clock
    request fails, the change is aborted and the power parent is not
    released. *)
Lemma aborted_change_releases_counterexample :
  ~ aborted_change_releases env_clock_fails slave_pc 1.
Proof.
  unfold aborted_change_releases. intros H.
  assert (Hfail : fst (PmSlaveChangeState env_clock_fails 1
                         (mkPmWorld slave_pc [])) <> XST_SUCCESS)
    by (vm_compute; discriminate).
  specialize (H Hfail). vm_compute in H. discriminate H.
Qed.

(** After the aborted change the slave is still in state 0, so a force-down
    that follows makes no state change and releases nothing either. *)
Example aborted_then_force_down_keeps_power :
  calls (snd (PmSlaveForceDown env_ok
                (snd (PmSlaveChangeState env_clock_fails 1
                        (mkPmWorld slave_pc [])))))
  = [CallPowerRequestParent 0; CallClockRequest 1].
Proof. reflexivity. Qed.

Example aborted_by_apply_keeps_power_and_clock :
  PmSlaveChangeState env_ok 1 (mkPmWorld slave_no_edge [])
  = (XST_FAILURE,
     mkPmWorld slave_no_edge [CallPowerRequestParent 0; CallClockRequest 0]).
Proof. reflexivity. Qed.

Lemma PmSlaveChangeState_aborted_keeps_acquisitions_witness :
  fst (PmSlaveChangeState env_ok 1 (mkPmWorld slave_no_edge [])) <> XST_SUCCESS
  /\ slave_of (snd (PmSlaveChangeState env_ok 1 (mkPmWorld slave_no_edge [])))
     = slave_no_edge.
Proof.
  assert (Hfail : fst (PmSlaveChangeState env_ok 1
                         (mkPmWorld slave_no_edge [])) <> XST_SUCCESS)
    by (vm_compute; discriminate).
  split; [exact Hfail|].
  exact (proj1 (PmSlaveChangeState_aborted_keeps_acquisitions
                  env_ok 1 (mkPmWorld slave_no_edge []) Hfail)).
Defined.

Lemma PmUpdateSlave_latencyMarg_exact_witness :
  latencies_u32 slave3 = true
  /\ PmUpdateSlave_resolve slave3 = inr (2, 60, 0)
  /\ latencyMarg (node (slave_of (snd (PmUpdateSlave env_ok
                                         (mkPmWorld slave3 [])))))
     = 60 - 0.
Proof.
  assert (Hu32 : latencies_u32 (slave_of (mkPmWorld slave3 [])) = true)
    by reflexivity.
  assert (Hres : PmUpdateSlave_resolve (slave_of (mkPmWorld slave3 []))
                 = inr (2, 60, 0)) by reflexivity.
  split; [exact Hu32|]. split; [exact Hres|].
  exact (proj1 (proj2 (proj2 (proj2 (proj2
           (PmUpdateSlave_latencyMarg_exact env_ok (mkPmWorld slave3 [])
              2 60 0 Hu32 Hres)))))).
Defined.

(** Spec, S4: two masters in use, current state 2. *)
Lemma PmSlaveForceDown_deactivates_all_witness :
  PmSlaveGetUsersMask (set_currState 2 slave3) = 3
  /\ PmSlaveGetUsersMask
       (slave_of (snd (PmSlaveForceDown env_ok
                         (mkPmWorld (set_currState 2 slave3) [])))) = 0.
Proof.
  split; [reflexivity|].
  exact (proj1 (proj2 (proj2 (PmSlaveForceDown_deactivates_all
                                env_ok (mkPmWorld (set_currState 2 slave3) []))))).
Defined.

Example S4_force_down :
  PmSlaveForceDown env_ok (mkPmWorld (set_currState 2 slave3) [])
  = (XST_SUCCESS,
     mkPmWorld
       (mkPmSlave (mkPmNode (Some (mkPmPower None)) true 0 0)
                  [ mkPmRequirement master_apu 0 0 MAX_LATENCY;
                    mkPmRequirement master_rpu 4 0 MAX_LATENCY ]
                  fsm3 0)
       [CallClockRelease; CallPowerReleaseParent]).
Proof. reflexivity. Qed.

(** C9, the statement fails: mask 1 resolves and is bound, mask 2 does not
    resolve; the call fails and the binding of mask 1 stays. *)
Lemma unresolved_config_leaves_no_binding_counterexample :
  ~ unresolved_config_leaves_no_binding only_apu PmRequirementAdd_model
      slave_unbound 1 3.
Proof.
  unfold unresolved_config_leaves_no_binding. intros H.
  assert (Hex : exists m, In m (masks_of 3) /\ only_apu m = None).
  { exists 2. split; [vm_compute; auto | reflexivity]. }
  destruct (H Hex) as [_ Hreqs]. vm_compute in Hreqs. discriminate Hreqs.
Qed.

Lemma PmSlaveSetConfig_unresolved_keeps_earlier_bindings_witness :
  PmSlaveSetConfig only_apu PmRequirementAdd_model slave_unbound 1 3
  = (XST_FAILURE,
     bind_all PmRequirementAdd_model [master_apu] (with_policy 1 slave_unbound)).
Proof.
  assert (Hsplit : masks_of 3 = [1] ++ 2 :: []) by reflexivity.
  assert (Hknown : Forall2 (fun b mst => only_apu b = Some mst)
                           [1] [master_apu])
    by (constructor; [reflexivity | constructor]).
  assert (Hadd : Forall (fun mst => forall s,
                           fst (PmRequirementAdd_model mst s) = XST_SUCCESS)
                        [master_apu]).
  { constructor; [|constructor].
    intros s. exact (proj1 (PmRequirementAdd_model_binds master_apu s)). }
  assert (Hunknown : only_apu 2 = None) by reflexivity.
  exact (proj1 (PmSlaveSetConfig_unresolved_keeps_earlier_bindings
                  only_apu PmRequirementAdd_model slave_unbound 1 3 2
                  [1] [] [master_apu] Hsplit Hknown Hadd Hunknown)).
Defined.

Lemma PmSlaveGetWakeUpLatency_partial_on_no_feature_witness :
  PmSlaveGetWakeUpLatency slave3 777 = Some (XST_NO_FEATURE, 50).
Proof.
  assert (Hparent : parent (node slave3) = Some (mkPmPower None))
    by reflexivity.
  assert (Hmethod : getWakeUpLatency (mkPmPower None) = None) by reflexivity.
  exact (proj1 (PmSlaveGetWakeUpLatency_partial_on_no_feature
                  slave3 (mkPmPower None) 777 Hparent Hmethod)).
Defined.

(** ** The further theorems on the concrete tables *)

Lemma PmGetStateWithCaps_monotone_witness :
  exists i', PmGetStateWithCaps slave3 8 (Some 0) = (XST_SUCCESS, Some i')
             /\ 0 <= i' <= 2.
Proof.
  assert (Hsub : Z.land 8 24 = 8) by reflexivity.
  assert (Hfound : PmGetStateWithCaps slave3 24 (Some 0) = (XST_SUCCESS, Some 2))
    by reflexivity.
  exact (PmGetStateWithCaps_monotone slave3 24 8 0 2 Hsub Hfound).
Defined.

Lemma PmSlaveVerifyRequest_grants_witness :
  PmSlaveVerifyRequest 2007 slave3 = 2007
  /\ PmSlaveVerifyRequest 2007 slave_unbound = XST_SUCCESS.
Proof.
  assert (Hused : 2007 <> XST_SUCCESS) by (vm_compute; discriminate).
  pose proof (PmSlaveVerifyRequest_grants 2007 slave3 Hused)
    as (_ & _ & Hrefused & Hafter).
  split.
  - apply (Hrefused eq_refl (mkPmRequirement master_apu 2 16 MAX_LATENCY)).
    + left. reflexivity.
    + reflexivity.
    + vm_compute. discriminate.
  - assert (Hused' : 2007 <> XST_SUCCESS) by (vm_compute; discriminate).
    exact (proj2 (proj2 (proj2 (PmSlaveVerifyRequest_grants
                                  2007 slave_unbound Hused'))) eq_refl).
Defined.

Lemma PmUpdateSlave_resolve_lowest_within_bound_witness :
  lowest_within_bound slave3 (PmGetMaxCapabilities slave3)
                      (PmGetMinRequestedLatency slave3) 2.
Proof.
  assert (Hpos : 0 < statesCnt (slvFsm slave3) < 2 ^ PmStateId_bits)
    by (split; reflexivity).
  apply (proj1 (PmUpdateSlave_resolve_lowest_within_bound slave3 Hpos) 2).
  exists 60, 0. reflexivity.
Defined.

Lemma PmUpdateSlave_resolve_serves_every_master_witness :
  Z.land (currReq (mkPmRequirement master_rpu 6 8 60))
         (states_at (slvFsm slave3) 2)
  = currReq (mkPmRequirement master_rpu 6 8 60)
  /\ PmGetLatencyFromState slave3 2
     <= latencyReq (mkPmRequirement master_rpu 6 8 60).
Proof.
  assert (Hpos : 0 < statesCnt (slvFsm slave3) < 2 ^ PmStateId_bits)
    by (split; reflexivity).
  assert (Hres : PmUpdateSlave_resolve slave3 = inr (2, 60, 0)) by reflexivity.
  assert (Hin : In (mkPmRequirement master_rpu 6 8 60) (reqs slave3))
    by (right; left; reflexivity).
  pose proof (PmUpdateSlave_resolve_serves_every_master
                slave3 2 60 0 Hpos Hres) as [Hcaps Hlat].
  split.
  - exact (Hcaps _ Hin eq_refl).
  - exact (Hlat _ Hin eq_refl).
Defined.

Lemma PmUpdateSlave_conflict_no_effect_witness :
  PmUpdateSlave env_ok (mkPmWorld slave_conflict [])
  = (XST_PM_CONFLICT, mkPmWorld slave_conflict []).
Proof.
  assert (Hpos : 0 < statesCnt (slvFsm (slave_of (mkPmWorld slave_conflict [])))
                 < 2 ^ PmStateId_bits) by (split; reflexivity).
  apply (PmUpdateSlave_conflict_no_effect env_ok _ Hpos).
  intros j Hj [Hsup _]. revert Hsup. cbn [slave_of] in Hj.
  assert (Hcases : j = 0 \/ j = 1 \/ j = 2)
    by (change (statesCnt (slvFsm slave_conflict)) with 3 in Hj; lia).
  destruct Hcases as [H|[H|H]]; subst j; vm_compute; discriminate.
Defined.

Lemma PmUpdateSlave_no_change_in_resolved_state_witness :
  PmUpdateSlave env_ok (mkPmWorld (set_currState 2 slave3) [])
  = (XST_SUCCESS,
     mkPmWorld (set_latencyMarg (wrap32 (60 - 0)) (set_currState 2 slave3)) []).
Proof.
  assert (Hpos : 0 < statesCnt (slvFsm (slave_of
                       (mkPmWorld (set_currState 2 slave3) [])))
                 < 2 ^ PmStateId_bits) by (split; reflexivity).
  assert (Hcur : lowest_within_bound (set_currState 2 slave3)
                   (PmGetMaxCapabilities (set_currState 2 slave3))
                   (PmGetMinRequestedLatency (set_currState 2 slave3)) 2).
  { split; [vm_compute; split; [discriminate | reflexivity]|]. split.
    - split; [reflexivity | vm_compute; discriminate].
    - intros j Hj [Hsup _]. revert Hsup.
      assert (Hcases : j = 0 \/ j = 1) by lia.
      destruct Hcases as [H|H]; subst j; vm_compute; discriminate. }
  exact (PmUpdateSlave_no_change_in_resolved_state env_ok
           (mkPmWorld (set_currState 2 slave3) []) Hpos Hcur).
Defined.

Lemma PmUpdateSlave_success_reaches_resolved_state_witness :
  lowest_within_bound slave3 (PmGetMaxCapabilities slave3)
    (PmGetMinRequestedLatency slave3)
    (currState (node (slave_of (snd (PmUpdateSlave env_ok
                                       (mkPmWorld slave3 []))))))
  /\ currState (node (slave_of (snd (PmUpdateSlave env_ok
                                       (mkPmWorld slave3 []))))) = 2.
Proof.
  assert (Hpos : 0 < statesCnt (slvFsm (slave_of (mkPmWorld slave3 [])))
                 < 2 ^ PmStateId_bits) by (split; reflexivity).
  assert (Hok : fst (PmUpdateSlave env_ok (mkPmWorld slave3 [])) = XST_SUCCESS)
    by reflexivity.
  split; [|reflexivity].
  exact (proj1 (PmUpdateSlave_success_reaches_resolved_state
                  env_ok (mkPmWorld slave3 []) Hpos Hok)).
Defined.

Lemma PmUpdateSlave_failure_keeps_state_witness :
  fst (PmUpdateSlave env_clock_fails (mkPmWorld slave3 [])) <> XST_SUCCESS
  /\ currState (node (slave_of (snd (PmUpdateSlave env_clock_fails
                                       (mkPmWorld slave3 [])))))
     = currState (node slave3).
Proof.
  assert (Hfail : fst (PmUpdateSlave env_clock_fails (mkPmWorld slave3 []))
                  <> XST_SUCCESS) by (vm_compute; discriminate).
  split; [exact Hfail|].
  exact (proj1 (PmUpdateSlave_failure_keeps_state
                  env_clock_fails (mkPmWorld slave3 []) Hfail)).
Defined.

Lemma PmSlaveChangeState_success_follows_fsm_witness :
  currState (node (slave_of (snd (PmSlaveChangeState env_ok 1
                                    (mkPmWorld slave_pc []))))) = 1
  /\ (transCnt (slvFsm slave_pc) = 0
      \/ has_transition (slvFsm slave_pc) (currState (node slave_pc)) 1).
Proof.
  assert (Hok : fst (PmSlaveChangeState env_ok 1 (mkPmWorld slave_pc []))
                = XST_SUCCESS) by reflexivity.
  pose proof (PmSlaveChangeState_success_follows_fsm
                env_ok 1 (mkPmWorld slave_pc []) Hok) as (H1 & _ & _ & _ & H5).
  split; [exact H1 | exact H5].
Defined.

Lemma PmSlaveForceDown_idempotent_witness :
  PmSlaveForceDown env_clock_fails
    (snd (PmSlaveForceDown env_ok (mkPmWorld (set_currState 2 slave3) [])))
  = (XST_SUCCESS,
     snd (PmSlaveForceDown env_ok (mkPmWorld (set_currState 2 slave3) []))).
Proof.
  assert (Hok : fst (PmSlaveForceDown env_ok
                       (mkPmWorld (set_currState 2 slave3) [])) = XST_SUCCESS)
    by reflexivity.
  exact (PmSlaveForceDown_idempotent env_ok env_clock_fails
           (mkPmWorld (set_currState 2 slave3) []) Hok).
Defined.

Lemma PmSlaveSetConfig_all_resolved_witness :
  PmSlaveSetConfig both_known PmRequirementAdd_model slave_unbound 0 3
  = (XST_SUCCESS,
     bind_all PmRequirementAdd_model [master_apu; master_rpu]
              (with_policy 0 slave_unbound)).
Proof.
  assert (Hknown : Forall2 (fun b mst => both_known b = Some mst)
                           (masks_of 3) [master_apu; master_rpu]).
  { change (masks_of 3) with [1; 2].
    constructor; [reflexivity|]. constructor; [reflexivity | constructor]. }
  assert (Hadd : Forall (fun mst => forall s,
                           fst (PmRequirementAdd_model mst s) = XST_SUCCESS)
                        [master_apu; master_rpu]).
  { constructor; [|constructor; [|constructor]]; intros s;
      apply PmRequirementAdd_model_binds. }
  exact (proj1 (PmSlaveSetConfig_all_resolved both_known PmRequirementAdd_model
                  slave_unbound 0 3 [master_apu; master_rpu] Hknown Hadd)).
Defined.

Lemma PmSlaveClearConfig_resets_witness :
  PmSlaveVerifyRequest 2007 (PmSlaveClearConfig slave3) = XST_SUCCESS
  /\ PmUpdateSlave_resolve (PmSlaveClearConfig slave3)
     = inr (0, MAX_LATENCY, PmGetLatencyFromState slave3 0).
Proof.
  assert (Hu32 : forallb (fun t => is_u32 (latency t)) (trans (slvFsm slave3))
                 = true) by reflexivity.
  pose proof (PmSlaveClearConfig_resets 2007 slave3 Hu32)
    as (_ & _ & _ & H4 & H5).
  split; [exact H4 | exact H5].
Defined.

Lemma PmUpdateSlave_resolve_monotone_witness :
  exists st',
    PmUpdateSlave_resolve slave_power_only
    = inr (st', PmGetMinRequestedLatency slave_power_only,
           PmGetLatencyFromState slave_power_only st')
    /\ 0 <= st' <= 2.
Proof.
  assert (Hpos : 0 < statesCnt (slvFsm slave3) < 2 ^ PmStateId_bits)
    by (split; reflexivity).
  assert (Hfsm : slvFsm slave_power_only = slvFsm slave3) by reflexivity.
  assert (Hcaps : Z.land (PmGetMaxCapabilities slave_power_only)
                         (PmGetMaxCapabilities slave3)
                  = PmGetMaxCapabilities slave_power_only) by reflexivity.
  assert (Hlat : PmGetMinRequestedLatency slave3
                 <= PmGetMinRequestedLatency slave_power_only)
    by (vm_compute; discriminate).
  assert (Hres : PmUpdateSlave_resolve slave3 = inr (2, 60, 0)) by reflexivity.
  exact (PmUpdateSlave_resolve_monotone slave3 slave_power_only 2 60 0
           Hpos Hfsm Hcaps Hlat Hres).
Defined.

Lemma PmSlaveSetConfig_success_all_known_witness :
  both_known 2 <> None.
Proof.
  assert (Hok : fst (PmSlaveSetConfig both_known PmRequirementAdd_model
                                      slave_unbound 0 3) = XST_SUCCESS)
    by reflexivity.
  assert (Hin : In 2 (masks_of 3)) by (vm_compute; auto).
  exact (PmSlaveSetConfig_success_all_known both_known PmRequirementAdd_model
           slave_unbound 0 3 Hok 2 Hin).
Defined.

Lemma PmCheckCapabilities_iff_some_state_witness :
  exists i, 0 <= i < statesCnt (slvFsm slave3)
            /\ superset_state (slvFsm slave3) 24 i.
Proof.
  exact (proj1 (proj1 (PmCheckCapabilities_iff_some_state slave3 24)) eq_refl).
Defined.

Lemma PmSlaveHasWakeUpCap_iff_witness :
  PmSlaveHasWakeUpCap 4 true slave3 = XST_NO_FEATURE
  /\ ~ (exists i, 0 <= i < statesCnt (slvFsm slave3)
                  /\ superset_state (slvFsm slave3) 4 i).
Proof.
  split; [reflexivity|]. intros Hex.
  assert (Hs : PmSlaveHasWakeUpCap 4 true slave3 = XST_SUCCESS)
    by (apply (proj1 (PmSlaveHasWakeUpCap_iff 4 true slave3));
        split; [reflexivity | exact Hex]).
  vm_compute in Hs. discriminate Hs.
Defined.

Lemma PmGetMinRequestedLatency_is_minimum_witness :
  PmGetMinRequestedLatency slave3 <= MAX_LATENCY
  /\ PmGetMinRequestedLatency slave3 = 60.
Proof.
  split; [|reflexivity].
  exact (proj1 (PmGetMinRequestedLatency_is_minimum slave3)).
Defined.

Lemma PmSlaveGetUsersMask_or_of_users_witness :
  PmSlaveGetUsersMask slave3 = or_of_users (reqs slave3)
  /\ PmSlaveGetUsersMask slave3 = 3.
Proof.
  split; [|reflexivity].
  exact (proj1 (PmSlaveGetUsersMask_or_of_users slave3)).
Defined.


Lemma PmSlaveChangeState_call_discipline_witness :
  ~ (wants_power_request slave_pc 1 = true
     /\ wants_power_release slave_pc (currState (node slave_pc)) 1 = true).
Proof.
  destruct (PmSlaveChangeState_call_discipline env_ok 1 (mkPmWorld slave_pc []))
    as (new & _ & _ & _ & _ & _ & Hpower & _).
  exact Hpower.
Defined.

Lemma PmSlaveForceDown_state_witness :
  currState (node (slave_of (snd (PmSlaveForceDown env_ok
                                    (mkPmWorld (set_currState 2 slave3) [])))))
  = 0.
Proof.
  exact (proj1 (proj1 (PmSlaveForceDown_state env_ok
                         (mkPmWorld (set_currState 2 slave3) [])) eq_refl)).
Defined.
